(** * Content engine: narration, voice, subtitle, clip and publish stages

    A shallow embedding of the TypeScript sources of the content engine:
    - [Text]             packages/ai/text.ts (generateNarration and its providers)
    - [VoiceGen]         services/tts/voice_gen.ts (synthesizeVoice)
    - [WorkerIndex]      apps/worker/index.ts (generateSubtitles of the CLI pipeline)
    - [ClipProcessor]    apps/worker/processors/clipProcessor.ts (processClip)
    - [PublishProcessor] apps/worker/processors/publishProcessor.ts (publishContent)
    - [Tiktok]           services/scheduler/publishers/tiktok.ts (publish)
    - [Queue]            apps/dashboard/lib/queue.ts with apps/worker/worker.ts

    Conventions.  A JavaScript number that the code computes with is an exact
    rational ([Q]) or an integer ([Z], [N], [nat]) where the code only counts.
    A JavaScript string is a [string] whose characters are code units below
    256.  A promise that rejects, or a [throw], is [Throw msg]; a resolved
    value is [Ok v].  Everything outside the process (HTTP, child processes,
    the file system's refusals, the clock, the random generator) is an oracle
    held in a record that the function receives. *)

From Stdlib Require Import Ascii String QArith Qminmax Qround Lqa.
From stdpp Require Import base strings list sorting gmap pretty.

Open Scope string_scope.
Open Scope list_scope.
Set Warnings "-register-all".

(** ** Results of possibly throwing computations *)

Inductive Result (A : Type) : Type :=
| Ok (a : A)
| Throw (msg : string).
Arguments Ok {A} a.
Arguments Throw {A} msg.

Definition rbind {A B} (r : Result A) (k : A -> Result B) : Result B :=
  match r with
  | Ok a => k a
  | Throw m => Throw m
  end.

(** [try r catch h] *)
Definition try_catch {A} (r : Result A) (h : string -> Result A) : Result A :=
  match r with
  | Ok a => Ok a
  | Throw m => h m
  end.

Definition is_ok {A} (r : Result A) : bool :=
  match r with Ok _ => true | Throw _ => false end.

#[global] Instance Result_ret : MRet Result := fun _ a => Ok a.
#[global] Instance Result_bind : MBind Result := fun _ _ k r => rbind r k.

(** ** JSON values and JavaScript member access *)

Inductive Json : Type :=
| JNull
| JBool (b : bool)
| JNum (q : Q)
| JStr (s : string)
| JArr (items : list Json)
| JObj (fields : list (string * Json)).

(** A JavaScript value is a JSON value or [undefined]. *)
Definition JsVal : Type := option Json.

Inductive Key : Type :=
| Field (name : string)
| Idx (i : nat).

Fixpoint assoc {A} (k : string) (l : list (string * A)) : option A :=
  match l with
  | [] => None
  | (k', v) :: l' => if String.eqb k k' then Some v else assoc k l'
  end.

Definition char_at (s : string) (i : nat) : JsVal :=
  match String.get i s with
  | Some c => Some (JStr (String c EmptyString))
  | None => None
  end.

(** [v[k]] for a value that is neither [null] nor [undefined]; only the
    keys that the sources read (named fields and indices) are covered. *)
Definition member (v : Json) (k : Key) : JsVal :=
  match v, k with
  | JObj fs, Field name => assoc name fs
  | JObj fs, Idx i => assoc (pretty i) fs
  | JArr l, Idx i => l !! i
  | JStr s, Idx i => char_at s i
  | _, _ => None
  end.

(** Reading a property of [null] or [undefined] is a TypeError. *)
Definition get (v : JsVal) (k : Key) : Result JsVal :=
  match v with
  | None | Some JNull => Throw "TypeError: Cannot read properties of undefined"
  | Some j => Ok (member j k)
  end.

(** [process.env.NAME]: absent and empty are both falsy. *)
Definition truthy_env (env : gmap string string) (name : string) : option string :=
  match env !! name with
  | Some s => if String.eqb s "" then None else Some s
  | None => None
  end.

Definition env_or (env : gmap string string) (name dflt : string) : string :=
  default dflt (truthy_env env name).

(** ** HTTP *)

Module Http.

Record Request := {
  url : string;
  bearer : option string;
  api_key_header : option string;
  texts : list string
}.

Record Response := {
  ok : bool;
  status : nat;
  statusText : string;
  text : string;          (* response.text(), or the bytes of arrayBuffer() *)
  json : option Json      (* response.json(); None when the body is not JSON *)
}.

Inductive FetchOutcome : Type :=
| Rejected (msg : string)
| Responded (r : Response).

End Http.

(** ** packages/core/prompts.ts *)

Module Prompts.

Inductive Lang := fr | en.
Inductive NarrationStyle := zen | adventure.

Definition lang_str (l : Lang) : string :=
  match l with fr => "fr" | en => "en" end.
Definition style_str (s : NarrationStyle) : string :=
  match s with zen => "zen" | adventure => "adventure" end.

Record NarrationRequest := {
  lang : Lang;
  style : NarrationStyle;
  durationSec : Z;
  context : option string
}.

Definition narrationSystemPrompt (l : Lang) (s : NarrationStyle) : string :=
  "You are a concise " +:+ style_str s +:+ " narrator in " +:+ lang_str l
  +:+ ". Keep 90-120 words, vivid but not cheesy. Avoid clichés.".

End Prompts.

(** ** packages/ai/text.ts *)

Module Text.
Import Prompts.

Record NarrationResult := {
  title : string;
  narration : string;
  caption : string;
  hashtags : list string
}.

(** The object that a [NarrationResult] is at run time. *)
Definition to_json (r : NarrationResult) : Json :=
  JObj [ ("title", JStr (title r)); ("narration", JStr (narration r));
         ("caption", JStr (caption r)); ("hashtags", JArr (JStr <$> hashtags r)) ].

Record World := {
  process_env : gmap string string;
  fetch : Http.Request -> Http.FetchOutcome;
  (* JSON.parse(v): the argument is coerced to a string; None is a SyntaxError *)
  JSON_parse : JsVal -> option Json
}.

(** zod: [z.string()] *)
Definition z_string (v : JsVal) : option string :=
  match v with
  | Some (JStr s) => Some s
  | _ => None
  end.

(** zod: [z.array(z.string()).min(6).max(20)] *)
Definition z_hashtags (v : JsVal) : option (list string) :=
  match v with
  | Some (JArr l) =>
      match mapM (fun j => z_string (Some j)) l with
      | Some tags =>
          if (6 <=? length tags)%nat && (length tags <=? 20)%nat
          then Some tags else None
      | None => None
      end
  | _ => None
  end.

(** [ResultSchema.parse]: a [z.object] of the four keys; other keys are
    stripped, a failed check throws a ZodError. *)
Definition ResultSchema_parse (v : Json) : Result NarrationResult :=
  match v with
  | JObj fs =>
      match z_string (assoc "title" fs), z_string (assoc "narration" fs),
            z_string (assoc "caption" fs), z_hashtags (assoc "hashtags" fs) with
      | Some t, Some n, Some c, Some h =>
          Ok {| title := t; narration := n; caption := c; hashtags := h |}
      | _, _, _, _ => Throw "ZodError"
      end
  | _ => Throw "ZodError"
  end.

Definition stub_out : Json :=
  JObj [
    ("title", JStr "Breath with the Ocean");
    ("narration", JStr "Dive deep into the tranquil waters where time slows and the world above fades away. Feel the gentle rhythm of your breath as you explore the underwater realm, surrounded by vibrant coral and curious marine life. Each moment beneath the surface is a meditation, a chance to connect with the ancient rhythms of the sea. Let the weightlessness carry you as you discover the hidden beauty that lies beneath the waves.");
    ("caption", JStr "Experience the serenity of underwater exploration. Dive into a world of peace and wonder.");
    ("hashtags", JArr [ JStr "#ocean"; JStr "#diving"; JStr "#underwater";
                        JStr "#meditation"; JStr "#nature"; JStr "#peace";
                        JStr "#marine"; JStr "#serenity"; JStr "#breath";
                        JStr "#calm" ])
  ].

Definition generateStub (req : NarrationRequest) : Result NarrationResult :=
  ResultSchema_parse stub_out.

Definition nl : string := String (Ascii.ascii_of_nat 10) EmptyString.

Definition userPrompt (req : NarrationRequest) : string :=
  "Create content for a " +:+ pretty (durationSec req)
  +:+ "-second diving video clip"
  +:+ match context req with
      | Some c => if String.eqb c "" then "" else " about " +:+ c
      | None => ""
      end
  +:+ ". " +:+ nl +:+ "  " +:+ nl
  +:+ "  Return JSON with: title, narration (90-120 words), caption (2 sentences), hashtags (6-20 tags).".

(** The tail shared by both providers: parse the model's answer, validate
    it, and fall back to the stub when either step throws. *)
Definition parse_or_stub (w : World) (req : NarrationRequest) (content : JsVal)
  : Result NarrationResult :=
  try_catch
    (match JSON_parse w content with
     | Some parsed => ResultSchema_parse parsed
     | None => Throw "SyntaxError"
     end)
    (fun _ => generateStub req).

Definition generateWithOpenAI (w : World) (req : NarrationRequest)
  : Result NarrationResult :=
  match truthy_env (process_env w) "OPENAI_API_KEY" with
  | None => Throw "OPENAI_API_KEY not found"
  | Some apiKey =>
      let systemPrompt := narrationSystemPrompt (lang req) (style req) in
      match fetch w {| Http.url := "https://api.openai.com/v1/chat/completions";
                       Http.bearer := Some apiKey; Http.api_key_header := None;
                       Http.texts := [systemPrompt; userPrompt req] |} with
      | Http.Rejected m => Throw m
      | Http.Responded response =>
          if negb (Http.ok response) then
            Throw ("OpenAI API error: " +:+ pretty (Http.status response) +:+ " - "
                   +:+ Http.text response)
          else
            match Http.json response with
            | None => Throw "SyntaxError: Unexpected token in JSON"
            | Some data =>
                choices ← get (Some data) (Field "choices");
                first ← get choices (Idx 0);
                message ← get first (Field "message");
                content ← get message (Field "content");
                parse_or_stub w req content
            end
      end
  end.

Definition generateWithGemini (w : World) (req : NarrationRequest)
  : Result NarrationResult :=
  match truthy_env (process_env w) "GEMINI_API_KEY" with
  | None => Throw "GEMINI_API_KEY not found"
  | Some apiKey =>
      let systemPrompt := narrationSystemPrompt (lang req) (style req) in
      match fetch w {| Http.url := "https://generativelanguage.googleapis.com/v1beta/models/gemini-pro:generateContent?key=" +:+ apiKey;
                       Http.bearer := None; Http.api_key_header := None;
                       Http.texts := [systemPrompt +:+ nl +:+ nl +:+ userPrompt req] |} with
      | Http.Rejected m => Throw m
      | Http.Responded response =>
          if negb (Http.ok response) then
            Throw ("Gemini API error: " +:+ pretty (Http.status response))
          else
            match Http.json response with
            | None => Throw "SyntaxError: Unexpected token in JSON"
            | Some data =>
                candidates ← get (Some data) (Field "candidates");
                first ← get candidates (Idx 0);
                content ← get first (Field "content");
                parts ← get content (Field "parts");
                part ← get parts (Idx 0);
                txt ← get part (Field "text");
                parse_or_stub w req txt
            end
      end
  end.

Definition generateNarration (w : World) (req : NarrationRequest)
  : Result NarrationResult :=
  let provider := env_or (process_env w) "AI_PROVIDER" "openai" in
  try_catch
    (if String.eqb provider "openai" then generateWithOpenAI w req
     else if String.eqb provider "gemini" then generateWithGemini w req
     else generateStub req)
    (fun _ => generateStub req).

(** [result[name]] as JavaScript evaluates it on the returned object. *)
Definition result_prop (r : NarrationResult) (name : string) : JsVal :=
  member (to_json r) (Field name).

End Text.

(** ** services/tts/voice_gen.ts *)

Module VoiceGen.

Record VoiceInput := {
  text : string;
  voiceId : option string;
  outPath : string;
  provider : option string
}.

(** What a written file holds: the bytes a provider answered, or the
    placeholder WAV (header plus a 440 Hz sine of max(1, length/10)
    seconds) that [synthesizeBeep] builds from the text's length. *)
Inductive FileContent : Type :=
| ProviderAudio (body : string)
| BeepWav (text_length : nat).

Record World := {
  process_env : gmap string string;
  fetch : Http.Request -> Http.FetchOutcome;
  path_resolve : string -> string;
  path_dirname : string -> string;
  (* fs.mkdir(dir, {recursive: true}) and fs.writeFile(path, ...): the
     error they reject with, if any *)
  mkdir_error : string -> option string;
  writeFile_error : string -> option string
}.

Abbreviation Files := (gmap string FileContent).

Definition writeFile (w : World) (path : string) (c : FileContent) (fs : Files)
  : Result unit * Files :=
  match writeFile_error w path with
  | Some m => (Throw m, fs)
  | None => (Ok tt, <[path := c]> fs)
  end.

Definition falsy_opt (o : option string) : option string :=
  match o with
  | Some s => if String.eqb s "" then None else Some s
  | None => None
  end.

Definition synthesizeWithElevenLabs (w : World) (input : VoiceInput)
    (outPath : string) (fs : Files) : Result string * Files :=
  match truthy_env (process_env w) "ELEVENLABS_API_KEY" with
  | None => (Throw "ELEVENLABS_API_KEY not found", fs)
  | Some apiKey =>
      let voiceId := default "21m00Tcm4TlvDq8ikWAM" (falsy_opt (voiceId input)) in
      match fetch w {| Http.url := "https://api.elevenlabs.io/v1/text-to-speech/" +:+ voiceId;
                       Http.bearer := None; Http.api_key_header := Some apiKey;
                       Http.texts := [text input] |} with
      | Http.Rejected m => (Throw m, fs)
      | Http.Responded response =>
          if negb (Http.ok response) then
            (Throw ("ElevenLabs API error: " +:+ pretty (Http.status response)), fs)
          else
            match writeFile w outPath (ProviderAudio (Http.text response)) fs with
            | (Ok _, fs') => (Ok outPath, fs')
            | (Throw m, fs') => (Throw m, fs')
            end
      end
  end.

Definition synthesizeWithOpenAI (w : World) (input : VoiceInput)
    (outPath : string) (fs : Files) : Result string * Files :=
  match truthy_env (process_env w) "OPENAI_API_KEY" with
  | None => (Throw "OPENAI_API_KEY not found", fs)
  | Some apiKey =>
      match fetch w {| Http.url := "https://api.openai.com/v1/audio/speech";
                       Http.bearer := Some apiKey; Http.api_key_header := None;
                       Http.texts := [text input] |} with
      | Http.Rejected m => (Throw m, fs)
      | Http.Responded response =>
          if negb (Http.ok response) then
            (Throw ("OpenAI API error: " +:+ pretty (Http.status response)), fs)
          else
            match writeFile w outPath (ProviderAudio (Http.text response)) fs with
            | (Ok _, fs') => (Ok outPath, fs')
            | (Throw m, fs') => (Throw m, fs')
            end
      end
  end.

Definition synthesizeBeep (w : World) (input : VoiceInput)
    (outPath : string) (fs : Files) : Result string * Files :=
  match writeFile w outPath (BeepWav (String.length (text input))) fs with
  | (Ok _, fs') => (Ok outPath, fs')
  | (Throw m, fs') => (Throw m, fs')
  end.

Definition synthesizeVoice (w : World) (input : VoiceInput) (fs : Files)
  : Result string * Files :=
  let provider :=
    default (env_or (process_env w) "TTS_PROVIDER" "beep")
            (falsy_opt (provider input)) in
  let outPath := path_resolve w (outPath input) in
  match mkdir_error w (path_dirname w outPath) with
  | Some m => (Throw m, fs)
  | None =>
      match (if String.eqb provider "elevenlabs"
             then synthesizeWithElevenLabs w input outPath fs
             else if String.eqb provider "openai"
             then synthesizeWithOpenAI w input outPath fs
             else synthesizeBeep w input outPath fs) with
      | (Ok p, fs') => (Ok p, fs')
      | (Throw _, fs') => synthesizeBeep w input outPath fs'
      end
  end.

(** [result[name]] on the string that [synthesizeVoice] resolves to. *)
Definition result_prop (p : string) (name : string) : JsVal :=
  member (JStr p) (Field name).

End VoiceGen.

(** ** Strings and numbers as the subtitle code uses them *)

(** [s.split(sep)].  With [merge_runs] the separator is a maximal run of
    separator characters (the regular expression [/[.!?]+/]); without it
    every separator character cuts (a one-character string separator). *)
Fixpoint split_go (sep : ascii -> bool) (merge_runs in_run : bool) (s : string)
  : list string :=
  match s with
  | EmptyString => [EmptyString]
  | String c s' =>
      if sep c then
        if merge_runs && in_run then split_go sep merge_runs true s'
        else EmptyString :: split_go sep merge_runs true s'
      else
        match split_go sep merge_runs false s' with
        | p :: ps => String c p :: ps
        | [] => [String c EmptyString]
        end
  end.

Definition is_sentence_end (c : ascii) : bool :=
  (Ascii.eqb c "." || Ascii.eqb c "!" || Ascii.eqb c "?")%char.

Definition is_space_char (c : ascii) : bool := Ascii.eqb c " "%char.

(** [text.split(/[.!?]+/)] *)
Definition split_sentences (s : string) : list string :=
  split_go is_sentence_end true false s.

(** [text.split(' ')] *)
Definition split_spaces (s : string) : list string :=
  split_go is_space_char false false s.

(** White space that [trim] removes, among code units below 256. *)
Definition is_ws (c : ascii) : bool :=
  let n := Ascii.nat_of_ascii c in
  ((9 <=? n)%nat && (n <=? 13)%nat) || (n =? 32)%nat || (n =? 160)%nat.

Fixpoint ltrim (s : string) : string :=
  match s with
  | EmptyString => EmptyString
  | String c s' => if is_ws c then ltrim s' else s
  end.

Fixpoint string_rev_onto (s acc : string) : string :=
  match s with
  | EmptyString => acc
  | String c s' => string_rev_onto s' (String c acc)
  end.

Definition string_rev (s : string) : string := string_rev_onto s EmptyString.

Definition trim (s : string) : string :=
  string_rev (ltrim (string_rev (ltrim s))).

(** [parts.join(sep)] *)
Fixpoint join (sep : string) (parts : list string) : string :=
  match parts with
  | [] => ""
  | [p] => p
  | p :: ps => p +:+ sep +:+ join sep ps
  end.

(** [n.toString().padStart(width, '0')] *)
Definition pad_start (width : nat) (s : string) : string :=
  string_rev_onto (string_of_list_ascii (replicate (width - String.length s) "0"%char)) s.

(** JavaScript's [x % m]: the remainder has the sign of the dividend. *)
Definition Qtrunc (x : Q) : Z :=
  if Qle_bool 0%Q x then Qfloor x else Qceiling x.

Definition Qrem (x m : Q) : Q := (x - m * inject_Z (Qtrunc (x / m)))%Q.

Definition Qnat (n : nat) : Q := inject_Z (Z.of_nat n).

(** [formatSrtTime] (the same text in index.ts and clipProcessor.ts) *)
Definition formatSrtTime (seconds : Q) : string :=
  let hours := Qfloor (seconds / 3600)%Q in
  let minutes := Qfloor (Qrem seconds 3600 / 60)%Q in
  let secs := Qfloor (Qrem seconds 60)%Q in
  let ms := Qfloor (Qrem seconds 1 * 1000)%Q in
  pad_start 2 (pretty hours) +:+ ":" +:+ pad_start 2 (pretty minutes) +:+ ":"
  +:+ pad_start 2 (pretty secs) +:+ "," +:+ pad_start 3 (pretty ms).

Record SrtEntry := {
  number : nat;
  startTime : Q;
  endTime : Q;
  line : string
}.

Definition render_entry (e : SrtEntry) : string :=
  pretty (number e) +:+ Text.nl +:+ formatSrtTime (startTime e) +:+ " --> "
  +:+ formatSrtTime (endTime e) +:+ Text.nl +:+ line e +:+ Text.nl +:+ Text.nl.

Definition render_srt (entries : list SrtEntry) : string :=
  foldl (fun srt e => srt +:+ render_entry e) "" entries.

(** ** apps/worker/index.ts: generateSubtitles *)

Module WorkerIndex.

Definition sentences_of (text : string) : list string :=
  filter (fun s => (0 < String.length (trim s))%nat) (split_sentences text).

(** The body of the [for] loop, from index [i] and the running
    [startTime]; [continue] skips a sentence that trims to nothing. *)
Fixpoint subtitle_loop (timePerSentence duration : Q) (i : nat) (startTime : Q)
    (sentences : list string) : list SrtEntry :=
  match sentences with
  | [] => []
  | s :: rest =>
      let sentence := trim s in
      if String.eqb sentence "" then
        subtitle_loop timePerSentence duration (S i) startTime rest
      else
        let endTime := Qmin (startTime + timePerSentence)%Q duration in
        {| number := i + 1; startTime := startTime; endTime := endTime;
           line := sentence |}
        :: subtitle_loop timePerSentence duration (S i) endTime rest
  end.

(** The entries that [generateSubtitles] formats.  With no sentence the
    quotient [duration / 0] (Infinity or NaN in JavaScript, 0 here) is
    never read: the loop body does not run. *)
Definition subtitle_entries (text : string) (duration : Q) : list SrtEntry :=
  let sentences := sentences_of text in
  let timePerSentence := (duration / Qnat (length sentences))%Q in
  subtitle_loop timePerSentence duration 0 0 sentences.

Definition generateSubtitles (text : string) (duration : Q) (outputPath : string)
    (fs : gmap string string) : gmap string string :=
  <[outputPath := render_srt (subtitle_entries text duration)]> fs.

End WorkerIndex.

(** ** The worker's job, its files and its clock *)

Record Receipt := {
  r_clipId : string;
  r_platform : string;
  r_publishId : string;
  r_url : string;
  r_publishedAt : string;
  r_success : bool
}.

Inductive FileContent : Type :=
| SrtFile (content : string)
| ReceiptFile (r : Receipt).

(** One entry per call that leaves the worker process. *)
Inductive Call : Type :=
| CallDriveDownload (fileId : option string) (localPath : string)
| CallIngest (videoPath : string)
| CallNarration (i : nat)
| CallVoice (text outPath : string)
| CallWriteSrt (path : string)
| CallMontage (clip voice srt out : string)
| CallCreateFolder (name : string)
| CallUpload (localPath : string)
| CallPlatformUpload (clipId platform : string).

(** What a processor can see and change: the values passed to
    [job.updateProgress] so far (oldest first), the calls made so far, the
    files written, and the clock in milliseconds. *)
Record State := {
  reported : list nat;
  calls : list Call;
  files : gmap string FileContent;
  clock : N
}.

Definition initial_state : State :=
  {| reported := []; calls := []; files := ∅; clock := 0 |}.

(** [job.progress]: BullMQ stores the value of the last
    [job.updateProgress(v)] as it is; a new job has progress 0. *)
Definition job_progress (s : State) : nat := List.last (reported s) 0%nat.

Definition M (A : Type) : Type := State -> Result A * State.

#[global] Instance M_ret : MRet M := fun _ a s => (Ok a, s).
#[global] Instance M_bind : MBind M := fun _ _ k c s =>
  match c s with
  | (Ok a, s') => k a s'
  | (Throw m, s') => (Throw m, s')
  end.

Definition throw {A} (msg : string) : M A := fun s => (Throw msg, s).

(** [try { c } catch (error) { h }] *)
Definition catch {A} (c : M A) (h : string -> M A) : M A := fun s =>
  match c s with
  | (Ok a, s') => (Ok a, s')
  | (Throw m, s') => h m s'
  end.

Definition lift {A} (r : Result A) : M A := fun s => (r, s).

(** [await job.updateProgress(v)] *)
Definition updateProgress (v : nat) : M unit := fun s =>
  (Ok tt, {| reported := reported s ++ [v]; calls := calls s;
             files := files s; clock := clock s |}).

Definition record_call (c : Call) : M unit := fun s =>
  (Ok tt, {| reported := reported s; calls := calls s ++ [c];
             files := files s; clock := clock s |}).

Definition write_file (path : string) (c : FileContent) : M unit := fun s =>
  (Ok tt, {| reported := reported s; calls := calls s;
             files := <[path := c]> (files s); clock := clock s |}).

(** [await simulateProcess(ms)]: the timer lets [ms] milliseconds pass. *)
Definition simulateProcess (ms : N) : M unit := fun s =>
  (Ok tt, {| reported := reported s; calls := calls s; files := files s;
             clock := (clock s + ms)%N |}).

(** [Date.now()] *)
Definition Date_now : M N := fun s => (Ok (clock s), s).

Definition truthy (v : JsVal) : bool :=
  match v with
  | None | Some JNull | Some (JBool false) => false
  | Some (JNum q) => negb (Qeq_bool q 0)
  | Some (JStr s) => negb (String.eqb s "")
  | Some _ => true
  end.

(** ** apps/worker/processors/clipProcessor.ts *)

Module ClipProcessor.
Import Prompts.

Record DriveFile := { name : string }.

Record JobData := {
  type : string;
  clipId : option string;
  platform : option string;
  driveFile : option DriveFile;
  fileId : option string
}.

(** The body that the processor posts to the dashboard's /api/drive. *)
Record DriveRequest := {
  d_url : string;
  action : string;
  d_fileId : option string;
  d_localPath : option string;
  d_fileName : option string;
  d_parentFolderId : JsVal
}.

Record ProcessExit := {
  code : Z;
  stdout : string;
  stderr : string
}.

(** The collaborators of the processor.  [samplesDir] is
    [path.join(process.cwd(), '../../samples')]; the artifact paths below
    are that directory followed by the literal segments of the source. *)
Record Adapters := {
  samplesDir : string;
  dashboardUrl : string;       (* process.env.DASHBOARD_URL || 'http://localhost:5173' *)
  today : string;              (* new Date().toISOString().split('T')[0] *)
  nowISO : string;             (* new Date().toISOString() *)
  JSON_parse : string -> option Json;
  driveApi : DriveRequest -> Http.FetchOutcome;
  ingest_py : string -> string -> ProcessExit;
  generateNarration : nat -> NarrationRequest -> Result Text.NarrationResult;
  synthesizeVoice : string -> string -> Result string;
  writeFile_error : string -> option string;
  auto_edit_py : string -> string -> string -> string -> Z
}.

Record NarrationInfo := {
  clipPath : Json;
  narration : Text.NarrationResult;
  index : nat
}.

Record AudioInfo := {
  a_info : NarrationInfo;
  audioPath : string;
  srtPath : string
}.

Record Metadata := {
  title : string;
  caption : string;
  hashtags : list string
}.

Record FinalVideo := {
  f_info : AudioInfo;
  finalPath : string;
  metadata : Metadata
}.

Record Uploaded := {
  u_video : FinalVideo;
  u_driveFile : JsVal;
  u_driveLink : JsVal
}.

Record UploadResults := {
  folderId : JsVal;
  folderLink : JsVal;
  uploadedFiles : list Uploaded
}.

Record ClipResult := {
  success : bool;
  res_clipId : string;
  inputPath : JsVal;
  finalVideos : list FinalVideo;
  uploadResults : option UploadResults;
  processedAt : string
}.

Definition downloadFromDrive (A : Adapters) (fileId : option string)
    (clipId : string) : M JsVal :=
  let localPath := samplesDir A +:+ "/raw/" +:+ clipId +:+ "_drive.mp4" in
  _ ← record_call (CallDriveDownload fileId localPath);
  match driveApi A {| d_url := dashboardUrl A +:+ "/api/drive";
                      action := "download"; d_fileId := fileId;
                      d_localPath := Some localPath; d_fileName := None;
                      d_parentFolderId := None |} with
  | Http.Rejected m => throw m
  | Http.Responded response =>
      if negb (Http.ok response) then
        throw ("Failed to download from Drive: " +:+ Http.statusText response)
      else
        match Http.json response with
        | None => throw "SyntaxError: Unexpected token in JSON"
        | Some result => lift (get (Some result) (Field "localPath"))
        end
  end.

(** spawn only accepts string arguments *)
Definition spawn_arg (v : JsVal) : M string :=
  match v with
  | Some (JStr s) => mret s
  | _ => throw "TypeError [ERR_INVALID_ARG_TYPE]: The argument must be of type string"
  end.

Definition ingestVideo (A : Adapters) (videoPath : JsVal) (clipId : string)
  : M Json :=
  let outputDir := samplesDir A +:+ "/clips" in
  input ← spawn_arg videoPath;
  _ ← record_call (CallIngest input);
  let exit := ingest_py A input outputDir in
  if (code exit =? 0)%Z then
    let fallback := JArr [JStr (clipId +:+ "_clip1.mp4"); JStr (clipId +:+ "_clip2.mp4")] in
    match JSON_parse A (trim (stdout exit)) with
    | None => mret fallback
    | Some result =>
        match get (Some result) (Field "clips") with
        | Throw _ => mret fallback
        | Ok clips => mret (if truthy clips then default (JArr []) clips else JArr [])
        end
    end
  else
    throw ("Ingest failed with code " +:+ pretty (code exit) +:+ ": " +:+ stderr exit).

Definition narration_request : NarrationRequest :=
  {| lang := en; style := zen; durationSec := 30; context := None |}.

(** The loop of [generateNarrations] from index [i] on. *)
Fixpoint generateNarrations_from (A : Adapters) (i : nat) (clips : list Json)
  : M (list NarrationInfo) :=
  match clips with
  | [] => mret []
  | clip :: rest =>
      pushed ← catch
        (_ ← record_call (CallNarration i);
         narration ← lift (generateNarration A i narration_request);
         mret [ {| clipPath := clip; narration := narration; index := i |} ])
        (fun _ => mret []);
      results ← generateNarrations_from A (S i) rest;
      mret (pushed ++ results)%list
  end.

Definition generateNarrations (A : Adapters) (clips : list Json)
  : M (list NarrationInfo) :=
  generateNarrations_from A 0 clips.

(** [generateSimpleSRT]: the words, the chunks of [wordsPerChunk] words,
    and one entry of three seconds per chunk. *)
Definition wordsPerSecond : Q := 5 # 2.

Definition wordsPerChunk : nat := Z.to_nat (Qceiling (wordsPerSecond * 3)%Q).

(** [for (let i = 0; i < words.length; i += wordsPerChunk)], with as many
    rounds of fuel as there are words. *)
Fixpoint chunk_loop (fuel i : nat) (words : list string) : list string :=
  match fuel with
  | O => []
  | S fuel' =>
      if (i <? length words)%nat then
        join " " (take wordsPerChunk (drop i words))
        :: chunk_loop fuel' (i + wordsPerChunk) words
      else []
  end.

Definition chunks_of (words : list string) : list string :=
  chunk_loop (length words) 0 words.

Definition simple_duration (words : list string) : Q :=
  Qmax 30 (Qnat (length words) / wordsPerSecond)%Q.

Definition simple_entry (duration : Q) (index : nat) (chunk : string) : SrtEntry :=
  {| number := index + 1;
     startTime := (Qnat index * 3)%Q;
     endTime := Qmin ((Qnat index + 1) * 3)%Q duration;
     line := chunk |}.

Definition simple_entries (text : string) : list SrtEntry :=
  let words := split_spaces text in
  imap (simple_entry (simple_duration words)) (chunks_of words).

Definition generateSimpleSRT (text : string) : string :=
  render_srt (simple_entries text).

Definition audio_path (A : Adapters) (index : nat) : string :=
  samplesDir A +:+ "/tts/" +:+ pretty index +:+ "_voice.wav".
Definition srt_path (A : Adapters) (index : nat) : string :=
  samplesDir A +:+ "/subs/" +:+ pretty index +:+ ".srt".
Definition final_path (A : Adapters) (index : nat) : string :=
  samplesDir A +:+ "/shorts/" +:+ pretty index +:+ "_final.mp4".

(** [await fs.writeFile(path, content)] *)
Definition writeFile (A : Adapters) (path content : string) : M unit :=
  _ ← record_call (CallWriteSrt path);
  match writeFile_error A path with
  | Some m => throw m
  | None => write_file path (SrtFile content)
  end.

Fixpoint generateAudioAndSubtitles (A : Adapters) (narrationsInfo : list NarrationInfo)
  : M (list AudioInfo) :=
  match narrationsInfo with
  | [] => mret []
  | info :: rest =>
      pushed ← catch
        (let audioPath := audio_path A (index info) in
         let srtPath := srt_path A (index info) in
         let text := Text.narration (narration info) in
         _ ← record_call (CallVoice text audioPath);
         _ ← lift (synthesizeVoice A text audioPath);
         _ ← writeFile A srtPath (generateSimpleSRT text);
         mret [ {| a_info := info; audioPath := audioPath; srtPath := srtPath |} ])
        (fun _ => mret []);
      results ← generateAudioAndSubtitles A rest;
      mret (pushed ++ results)%list
  end.

(** One round of the loop of [createFinalMontage]: the promise around the
    python process, resolved on exit code 0 and rejected otherwise. *)
Definition montage_one (A : Adapters) (info : AudioInfo) : M FinalVideo :=
  let outputPath := final_path A (index (a_info info)) in
  clip ← spawn_arg (Some (clipPath (a_info info)));
  _ ← record_call (CallMontage clip (audioPath info) (srtPath info) outputPath);
  let code := auto_edit_py A clip (audioPath info) (srtPath info) outputPath in
  if (code =? 0)%Z then
    mret {| f_info := info; finalPath := outputPath;
            metadata := {| title := Text.title (narration (a_info info));
                           caption := Text.caption (narration (a_info info));
                           hashtags := Text.hashtags (narration (a_info info)) |} |}
  else throw ("Montage failed with code " +:+ pretty code).

Fixpoint createFinalMontage (A : Adapters) (audioInfo : list AudioInfo)
  : M (list FinalVideo) :=
  match audioInfo with
  | [] => mret []
  | info :: rest =>
      pushed ← catch (v ← montage_one A info; mret [v]) (fun _ => mret []);
      results ← createFinalMontage A rest;
      mret (pushed ++ results)%list
  end.

Definition is_slash (c : ascii) : bool := Ascii.eqb c "/"%char.

(** [path.basename(p)] of a path without a trailing separator *)
Definition basename (p : string) : string :=
  List.last (split_go is_slash false false p) "".

Definition upload_one (A : Adapters) (folderId : JsVal) (video : FinalVideo)
  : M (list Uploaded) :=
  _ ← record_call (CallUpload (finalPath video));
  match driveApi A {| d_url := dashboardUrl A +:+ "/api/drive"; action := "upload";
                      d_fileId := None; d_localPath := Some (finalPath video);
                      d_fileName := Some (basename (finalPath video));
                      d_parentFolderId := folderId |} with
  | Http.Rejected m => throw m
  | Http.Responded uploadResponse =>
      if Http.ok uploadResponse then
        match Http.json uploadResponse with
        | None => throw "SyntaxError: Unexpected token in JSON"
        | Some uploadResult =>
            file ← lift (get (Some uploadResult) (Field "file"));
            link ← lift (get file (Field "webViewLink"));
            mret [ {| u_video := video; u_driveFile := file; u_driveLink := link |} ]
        end
      else mret []
  end.

Fixpoint upload_loop (A : Adapters) (folderId : JsVal) (finalVideos : list FinalVideo)
  : M (list Uploaded) :=
  match finalVideos with
  | [] => mret []
  | video :: rest =>
      pushed ← catch (upload_one A folderId video) (fun _ => mret []);
      results ← upload_loop A folderId rest;
      mret (pushed ++ results)%list
  end.

Definition uploadResultsToDrive (A : Adapters) (finalVideos : list FinalVideo)
    (originalDriveFile : DriveFile) : M UploadResults :=
  let folderName := "ContentEngine_" +:+ name originalDriveFile +:+ "_" +:+ today A in
  _ ← record_call (CallCreateFolder folderName);
  match driveApi A {| d_url := dashboardUrl A +:+ "/api/drive";
                      action := "create-folder"; d_fileId := None;
                      d_localPath := None; d_fileName := Some folderName;
                      d_parentFolderId := None |} with
  | Http.Rejected m => throw m
  | Http.Responded folderResponse =>
      if negb (Http.ok folderResponse) then throw "Failed to create Drive folder"
      else
        match Http.json folderResponse with
        | None => throw "SyntaxError: Unexpected token in JSON"
        | Some folder =>
            folder_folder ← lift (get (Some folder) (Field "folder"));
            folderId ← lift (get folder_folder (Field "id"));
            results ← upload_loop A folderId finalVideos;
            folderLink ← lift (get folder_folder (Field "webViewLink"));
            mret {| folderId := folderId; folderLink := folderLink;
                    uploadedFiles := results |}
        end
  end.

(** [Array.isArray(clipsInfo) ? clipsInfo : [clipsInfo]] *)
Definition as_array (clipsInfo : Json) : list Json :=
  match clipsInfo with
  | JArr l => l
  | v => [v]
  end.

(** [processClip(clipId, job)]; the outer [catch] logs and rethrows. *)
Definition processClip (A : Adapters) (clipId : string) (jobData : JobData)
  : M ClipResult :=
  let isFromDrive := driveFile jobData in
  catch
    (_ ← updateProgress 5;
     localVideoPath ←
       match isFromDrive with
       | Some _ =>
           p ← downloadFromDrive A (fileId jobData) clipId;
           _ ← updateProgress 15;
           mret p
       | None => mret (Some (JStr (samplesDir A +:+ "/clips/" +:+ clipId +:+ ".mp4")))
       end;
     clipsInfo ← ingestVideo A localVideoPath clipId;
     _ ← updateProgress 35;
     narrationsInfo ← generateNarrations A (as_array clipsInfo);
     _ ← updateProgress 55;
     audioInfo ← generateAudioAndSubtitles A narrationsInfo;
     _ ← updateProgress 75;
     finalVideos ← createFinalMontage A audioInfo;
     _ ← updateProgress 90;
     uploadResults ←
       match isFromDrive with
       | Some originalDriveFile =>
           r ← uploadResultsToDrive A finalVideos originalDriveFile;
           mret (Some r)
       | None => mret None
       end;
     _ ← updateProgress 100;
     mret {| success := true; res_clipId := clipId; inputPath := localVideoPath;
             finalVideos := finalVideos; uploadResults := uploadResults;
             processedAt := nowISO A |})
    (fun error => throw error).

End ClipProcessor.

(** ** apps/worker/processors/publishProcessor.ts *)

Module PublishProcessor.

Record Env := {
  samplesDir : string;
  toISOString : N -> string;            (* new Date(ms).toISOString() *)
  writeFile_error : string -> option string
}.

Record UploadResult := {
  up_publishId : string;
  up_url : string;
  up_platform : string
}.

Record PublishResult := {
  success : bool;
  clipId : string;
  platform : string;
  publishId : string;
  url : string;
  publishedAt : string
}.

Definition uploadToPlatform (clipId platform : string) : M UploadResult :=
  _ ← record_call (CallPlatformUpload clipId platform);
  _ ← simulateProcess 2000;
  now ← Date_now;
  let publishId := platform +:+ "_" +:+ clipId +:+ "_" +:+ pretty now in
  if String.eqb platform "youtube" then
    mret {| up_publishId := publishId;
            up_url := "https://youtube.com/watch?v=" +:+ publishId;
            up_platform := "youtube" |}
  else if String.eqb platform "tiktok" then
    mret {| up_publishId := publishId;
            up_url := "https://tiktok.com/@user/video/" +:+ publishId;
            up_platform := "tiktok" |}
  else if String.eqb platform "meta" then
    mret {| up_publishId := publishId;
            up_url := "https://facebook.com/video/" +:+ publishId;
            up_platform := "meta" |}
  else throw ("Unsupported platform: " +:+ platform).

Definition receipt_path (E : Env) (clipId platform : string) (now : N) : string :=
  samplesDir E +:+ "/receipts/" +:+ clipId +:+ "_" +:+ platform +:+ "_"
  +:+ pretty now +:+ ".json".

(** [savePublishReceipt]: the [mkdir] is wrapped in a [try] that ignores
    its error; the [writeFile] is not. *)
Definition savePublishReceipt (E : Env) (clipId platform : string)
    (result : UploadResult) : M unit :=
  published ← Date_now;
  let receipt := {| r_clipId := clipId; r_platform := platform;
                    r_publishId := up_publishId result; r_url := up_url result;
                    r_publishedAt := toISOString E published;
                    r_success := true |} in
  now ← Date_now;
  let receiptPath := receipt_path E clipId platform now in
  match writeFile_error E receiptPath with
  | Some m => throw m
  | None => write_file receiptPath (ReceiptFile receipt)
  end.

Definition publishContent (E : Env) (clipId platform : string) : M PublishResult :=
  catch
    (_ ← updateProgress 10;
     _ ← updateProgress 25;
     _ ← simulateProcess 1000;
     _ ← updateProgress 50;
     result ← uploadToPlatform clipId platform;
     _ ← updateProgress 75;
     _ ← updateProgress 90;
     _ ← simulateProcess 500;
     _ ← savePublishReceipt E clipId platform result;
     _ ← updateProgress 100;
     now ← Date_now;
     mret {| success := true; clipId := clipId; platform := platform;
             publishId := up_publishId result; url := up_url result;
             publishedAt := toISOString E now |})
    (fun error => throw error).

(** The receipts on disk for one clip and platform. *)
Definition is_receipt_for (clipId platform : string) (c : FileContent) : bool :=
  match c with
  | ReceiptFile r => String.eqb (r_clipId r) clipId && String.eqb (r_platform r) platform
  | SrtFile _ => false
  end.

Definition receipts_for (clipId platform : string) (fs : gmap string FileContent)
  : list (string * FileContent) :=
  filter (fun kv => is_receipt_for clipId platform kv.2 = true) (map_to_list fs).

End PublishProcessor.

(** ** services/scheduler/publishers/tiktok.ts *)

Module Tiktok.

Record PublishOptions := {
  clipPath : string;
  title : option string;
  caption : option string;
  hashtags : option (list string)
}.

Record PublishResult := {
  externalId : string;
  platform : string;
  res_clipPath : string;
  res_title : string;
  res_caption : string;
  res_hashtags : list string;
  createdAt : string;
  uploadUrl : string;
  thumbnailUrl : string;
  isDryRun : bool
}.

(** What one call of [publish] reads from outside. *)
Record World := {
  cwd : string;
  now : N;                       (* Date.now() *)
  random36 : string;             (* Math.random().toString(36).substring(2) *)
  createdISO : string;           (* new Date().toISOString() *)
  DRY_RUN : option string        (* process.env.DRY_RUN *)
}.

Definition dry_run (w : World) : bool :=
  match DRY_RUN w with
  | Some v => String.eqb v "true"
  | None => false
  end.

Definition receipt_file (w : World) (platform externalId : string) : string :=
  cwd w +:+ "/.out/publish/" +:+ platform +:+ "/" +:+ externalId +:+ ".json".

Definition writeReceiptFile (w : World) (platform : string) (result : PublishResult)
    (fs : gmap string PublishResult) : gmap string PublishResult :=
  <[receipt_file w platform (externalId result) := result]> fs.

Definition publish (w : World) (options : PublishOptions)
    (fs : gmap string PublishResult) : PublishResult * gmap string PublishResult :=
  let externalId := "tt-" +:+ pretty (now w) +:+ "-" +:+ random36 w in
  let result :=
    {| externalId := externalId;
       platform := "TIKTOK";
       res_clipPath := clipPath options;
       res_title := default "Amazing diving content" (VoiceGen.falsy_opt (title options));
       res_caption := default "Check out this amazing dive! 🤿" (VoiceGen.falsy_opt (caption options));
       res_hashtags := default ["#diving"; "#ocean"; "#underwater"] (hashtags options);
       createdAt := createdISO w;
       uploadUrl := "https://tiktok.com/@user/video/" +:+ externalId;
       thumbnailUrl := "https://p16-sign-sg.tiktokcdn.com/obj/" +:+ externalId +:+ ".jpg";
       isDryRun := dry_run w |} in
  if negb (dry_run w) then (result, writeReceiptFile w "tiktok" result fs)
  else (result, fs).

End Tiktok.

(** ** apps/worker/worker.ts *)

Module Worker.
Import ClipProcessor.

Inductive JobResult : Type :=
| ClipDone (r : ClipResult)
| PublishDone (r : PublishProcessor.PublishResult).

(** [processJob(job)]; the [catch] logs and rethrows. *)
Definition processJob (A : Adapters) (E : PublishProcessor.Env) (data : JobData)
  : M JobResult :=
  catch
    (if String.eqb (type data) "process-clip" then
       match VoiceGen.falsy_opt (clipId data) with
       | None => throw "clipId is required for clip processing"
       | Some c => r ← processClip A c data; mret (ClipDone r)
       end
     else if String.eqb (type data) "publish-content" then
       match VoiceGen.falsy_opt (clipId data), VoiceGen.falsy_opt (platform data) with
       | Some c, Some p => r ← PublishProcessor.publishContent E c p; mret (PublishDone r)
       | _, _ => throw "clipId and platform are required for publishing"
       end
     else throw ("Unknown job type: " +:+ type data))
    (fun error => throw error).

(** The worker's concurrency ceiling. *)
Definition concurrency : nat := 2.

End Worker.

(** ** apps/dashboard/lib/queue.ts *)

Module Queue.
Import ClipProcessor.

Inductive BackoffType := exponential | fixed.

Record Backoff := {
  backoff_type : BackoffType;
  delay : N
}.

Record JobOptions := {
  attempts : nat;
  backoff : Backoff
}.

(** [defaultJobOptions] of [contentQueue] *)
Definition defaultJobOptions : JobOptions :=
  {| attempts := 3; backoff := {| backoff_type := exponential; delay := 2000 |} |}.

Definition createProcessClipJob (clipId : string) : JobData :=
  {| type := "process-clip"; clipId := Some clipId; platform := None;
     driveFile := None; fileId := None |}.

Definition createPublishJob (clipId platform : string) : JobData :=
  {| type := "publish-content"; clipId := Some clipId; platform := Some platform;
     driveFile := None; fileId := None |}.

Inductive JobStatus := Queued | Running | Done | Error | Cancelled.

Record Job := {
  status : JobStatus;
  retryCount : nat;                 (* failed attempts that were re-enqueued *)
  attemptsMade : nat;               (* times the processor was started *)
  lastError : option string;
  result : option Worker.JobResult;
  backoffs : list N                 (* the delay before each retry, in order *)
}.

(** Modelled from the spec: the retry policy is carried out by the BullMQ
    library, which is not part of the sources; the sources only configure
    it ([attempts], [backoff]).  Following the specification, a failed
    attempt with [retryCount] earlier retries is put back on the queue after
    [delay * 2^retryCount] milliseconds ([delay] for a fixed backoff), until
    [attempts] attempts have been made; then the job is in error with the
    message of the last failure. *)
Definition backoff_delay (opts : JobOptions) (retryCount : nat) : N :=
  match backoff_type (backoff opts) with
  | exponential => (delay (backoff opts) * 2 ^ N.of_nat retryCount)%N
  | fixed => delay (backoff opts)
  end.

(** Modelled from the spec: the attempts of one job.  [budget] is the
    number of attempts left; [process k] is the processor as it behaves
    during attempt number [k] (counted from 0). *)
Fixpoint run_attempts (opts : JobOptions) (process : nat -> M Worker.JobResult)
    (budget retryCount : nat) (delays : list N) (s : State) : Job * State :=
  match budget with
  | O => ({| status := Error; retryCount := retryCount; attemptsMade := retryCount;
             lastError := None; result := None; backoffs := delays |}, s)
  | S budget' =>
      match process retryCount s with
      | (Ok r, s') =>
          ({| status := Done; retryCount := retryCount;
              attemptsMade := S retryCount; lastError := None;
              result := Some r; backoffs := delays |}, s')
      | (Throw m, s') =>
          match budget' with
          | O => ({| status := Error; retryCount := retryCount;
                     attemptsMade := S retryCount; lastError := Some m;
                     result := None; backoffs := delays |}, s')
          | S _ =>
              let d := backoff_delay opts retryCount in
              run_attempts opts process budget' (S retryCount) (delays ++ [d])
                (simulateProcess d s').2
          end
      end
  end.

(** Modelled from the spec: a job added to [contentQueue] runs under the
    queue's default options. *)
Definition run_job (process : nat -> M Worker.JobResult) (s : State) : Job * State :=
  run_attempts defaultJobOptions process (attempts defaultJobOptions) 0 [] s.

End Queue.

(** ** Concrete inputs used by the examples below *)

Module Samples.
Import Prompts.

Definition stub_result : Text.NarrationResult :=
  Eval vm_compute in
    match Text.ResultSchema_parse Text.stub_out with
    | Ok r => r
    | Throw _ => {| Text.title := ""; Text.narration := ""; Text.caption := "";
                    Text.hashtags := [] |}
    end.

Definition req_en_zen : NarrationRequest :=
  {| lang := en; style := zen; durationSec := 20; context := None |}.






(** What ingest.py prints for two clips, and its parse. *)
Definition dq : string := String (Ascii.ascii_of_nat 34) EmptyString.

Definition two_clips_stdout : string :=
  "{" +:+ dq +:+ "clips" +:+ dq +:+ ": [" +:+ dq +:+ "/samples/clips/a.mp4" +:+ dq
  +:+ ", " +:+ dq +:+ "/samples/clips/b.mp4" +:+ dq +:+ "]}".

Definition two_clips_json : Json :=
  JObj [("clips", JArr [JStr "/samples/clips/a.mp4"; JStr "/samples/clips/b.mp4"])].

Definition parse_two_clips (s : string) : option Json :=
  if String.eqb s two_clips_stdout then Some two_clips_json else None.

(** Every collaborator succeeds. *)
Definition adapters_ok : ClipProcessor.Adapters :=
  {| ClipProcessor.samplesDir := "/samples";
     ClipProcessor.dashboardUrl := "http://localhost:5173";
     ClipProcessor.today := "2025-10-19";
     ClipProcessor.nowISO := "2025-10-19T12:00:00.000Z";
     ClipProcessor.JSON_parse := parse_two_clips;
     ClipProcessor.driveApi := fun _ => Http.Rejected "fetch failed";
     ClipProcessor.ingest_py := fun _ _ =>
       {| ClipProcessor.code := 0; ClipProcessor.stdout := two_clips_stdout;
          ClipProcessor.stderr := "" |};
     ClipProcessor.generateNarration := fun _ _ => Ok stub_result;
     ClipProcessor.synthesizeVoice := fun _ out => Ok out;
     ClipProcessor.writeFile_error := fun _ => None;
     ClipProcessor.auto_edit_py := fun _ _ _ _ => 0%Z |}.


(** The same, but ingest.py exits with code 1. *)
Definition adapters_ingest_fails : ClipProcessor.Adapters :=
  {| ClipProcessor.samplesDir := "/samples";
     ClipProcessor.dashboardUrl := "http://localhost:5173";
     ClipProcessor.today := "2025-10-19";
     ClipProcessor.nowISO := "2025-10-19T12:00:00.000Z";
     ClipProcessor.JSON_parse := parse_two_clips;
     ClipProcessor.driveApi := fun _ => Http.Rejected "fetch failed";
     ClipProcessor.ingest_py := fun _ _ =>
       {| ClipProcessor.code := 1; ClipProcessor.stdout := "";
          ClipProcessor.stderr := "No such file" |};
     ClipProcessor.generateNarration := fun _ _ => Ok stub_result;
     ClipProcessor.synthesizeVoice := fun _ out => Ok out;
     ClipProcessor.writeFile_error := fun _ => None;
     ClipProcessor.auto_edit_py := fun _ _ _ _ => 0%Z |}.

Definition publish_env : PublishProcessor.Env :=
  {| PublishProcessor.samplesDir := "/samples";
     PublishProcessor.toISOString := fun ms => pretty ms;
     PublishProcessor.writeFile_error := fun _ => None |}.

Definition clip_job : ClipProcessor.JobData := Queue.createProcessClipJob "clip42".

Definition publish_job : ClipProcessor.JobData :=
  Queue.createPublishJob "clip42" "tiktok".

Definition tiktok_world : Tiktok.World :=
  {| Tiktok.cwd := "/app"; Tiktok.now := 1760875200000; Tiktok.random36 := "k3j9x2";
     Tiktok.createdISO := "2025-10-19T12:00:00.000Z"; Tiktok.DRY_RUN := None |}.

Definition tiktok_options : Tiktok.PublishOptions :=
  {| Tiktok.clipPath := "/samples/shorts/0_final.mp4"; Tiktok.title := None;
     Tiktok.caption := None; Tiktok.hashtags := None |}.

End Samples.

(** ** Further concrete inputs *)

Module Examples.
Import Prompts.

(** A narration that a provider could answer with. *)
Definition reef_result : Text.NarrationResult :=
  {| Text.title := "Reef at Dawn";
     Text.narration := "The reef wakes slowly. Light falls through the water.";
     Text.caption := "Morning on the reef.";
     Text.hashtags := ["#reef"; "#dawn"; "#diving"; "#ocean"; "#light"; "#calm"] |}.

(** The body of a chat completion whose message holds [content]. *)
Definition completion (content : string) : Json :=
  JObj [("choices", JArr [JObj [("message", JObj [("content", JStr content)])]])].

Definition reef_response : Http.Response :=
  {| Http.ok := true; Http.status := 200; Http.statusText := "OK"; Http.text := "";
     Http.json := Some (completion "{...}") |}.

(** OpenAI is configured and answers every request with [reef_result]. *)
Definition text_world_openai : Text.World :=
  {| Text.process_env := {[ "OPENAI_API_KEY" := "sk-test" ]};
     Text.fetch := fun _ => Http.Responded reef_response;
     Text.JSON_parse := fun v =>
       match v with
       | Some (JStr "{...}") => Some (Text.to_json reef_result)
       | _ => None
       end |}.

End Examples.

(** ** Vocabulary of the properties *)

(** A value is validated when it is what [ResultSchema.parse] returned. *)
Definition validated (r : Text.NarrationResult) : Prop :=
  exists v, Text.ResultSchema_parse v = Ok r.



(** [extend s d] is the state [s] followed by the additions [d]; a
    computation is oblivious when it only adds to the state and never
    reads it. *)
Definition extend (s d : State) : State :=
  {| reported := reported s ++ reported d;
     calls := calls s ++ calls d;
     files := files d ∪ files s;
     clock := (clock s + clock d)%N |}.

Definition oblivious {A} (c : M A) : Prop :=
  forall s, c s = ((c initial_state).1, extend s (c initial_state).2).

(** [reports L c]: from any state, [c] appends to the reported values a
    prefix of [L], and the whole of [L] when it returns. *)
Definition reports {A} (L : list nat) (c : M A) : Prop :=
  forall s, exists l,
    reported (c s).2 = reported s ++ l
    /\ l `prefix_of` L
    /\ (is_ok (c s).1 = true -> l = L).

(** The checkpoints of [processClip]: 15 follows the download, which only
    a job from Drive has. *)
Definition checkpoints (fromDrive : bool) : list nat :=
  if fromDrive then [5; 15; 35; 55; 75; 90; 100]
  else [5; 35; 55; 75; 90; 100].

Definition publish_checkpoints : list nat := [10; 25; 50; 75; 90; 100].



(** All stages of the final video succeeded. *)
Definition stages_succeeded (A : ClipProcessor.Adapters)
    (v : ClipProcessor.FinalVideo) : Prop :=
  let a := ClipProcessor.f_info v in
  let n := ClipProcessor.a_info a in
  ClipProcessor.generateNarration A (ClipProcessor.index n)
    ClipProcessor.narration_request = Ok (ClipProcessor.narration n)
  /\ ClipProcessor.audioPath a = ClipProcessor.audio_path A (ClipProcessor.index n)
  /\ ClipProcessor.srtPath a = ClipProcessor.srt_path A (ClipProcessor.index n)
  /\ ClipProcessor.finalPath v = ClipProcessor.final_path A (ClipProcessor.index n)
  /\ is_ok (ClipProcessor.synthesizeVoice A
              (Text.narration (ClipProcessor.narration n))
              (ClipProcessor.audioPath a)) = true
  /\ ClipProcessor.writeFile_error A (ClipProcessor.srtPath a) = None
  /\ exists clip, ClipProcessor.clipPath n = JStr clip
       /\ ClipProcessor.auto_edit_py A clip (ClipProcessor.audioPath a)
            (ClipProcessor.srtPath a) (ClipProcessor.finalPath v) = 0%Z.

(** The video of a local clip, and how ingest.py exits on it. *)
Definition local_path (A : ClipProcessor.Adapters) (clipId : string) : string :=
  ClipProcessor.samplesDir A +:+ "/clips/" +:+ clipId +:+ ".mp4".

Definition ingest_exit (A : ClipProcessor.Adapters) (clipId : string)
  : ClipProcessor.ProcessExit :=
  ClipProcessor.ingest_py A (local_path A clipId)
    (ClipProcessor.samplesDir A +:+ "/clips").

(** The state after the queue has waited [ms] milliseconds. *)
Definition wait (ms : N) (s : State) : State := (simulateProcess ms s).2.

(** The platforms that [uploadToPlatform] knows. *)
Definition supported (platform : string) : Prop :=
  platform = "youtube" \/ platform = "tiktok" \/ platform = "meta".

(** The time at which a publish started at [s] writes its receipt: after
    the timers of 1000, 2000 and 500 ms. *)
Definition receipt_time (s : State) : N := (clock s + 1000 + 2000 + 500)%N.

Definition receipt_of (E : PublishProcessor.Env) (clipId platform : string)
    (s : State) : Receipt :=
  let publishId := platform +:+ "_" +:+ clipId +:+ "_" +:+ pretty (clock s + 1000 + 2000)%N in
  {| r_clipId := clipId; r_platform := platform; r_publishId := publishId;
     r_url := (if String.eqb platform "youtube" then "https://youtube.com/watch?v="
               else if String.eqb platform "tiktok" then "https://tiktok.com/@user/video/"
               else "https://facebook.com/video/") +:+ publishId;
     r_publishedAt := PublishProcessor.toISOString E (receipt_time s);
     r_success := true |}.

(** [makes P c]: from any state, the calls that [c] adds to the calls made
    so far all satisfy [P]. *)
Definition makes {A} (P : Call -> Prop) (c : M A) : Prop :=
  forall s, exists l, calls (c s).2 = calls s ++ l /\ Forall P l.

(** The calls that reach Google Drive (through the dashboard). *)
Definition is_drive_call (c : Call) : bool :=
  match c with
  | CallDriveDownload _ _ | CallCreateFolder _ | CallUpload _ => true
  | _ => false
  end.


(** [keeps c]: [c] writes no file. *)
Definition keeps {A} (c : M A) : Prop := forall s, files (c s).2 = files s.

(** The subtitles that [processClip] writes for a narration. *)
Definition subtitles_of (n : ClipProcessor.NarrationInfo) : FileContent :=
  SrtFile (ClipProcessor.generateSimpleSRT (Text.narration (ClipProcessor.narration n))).

(** * Properties *)

(** ** Narration: every returned value went through the schema *)

Section NarrationSchema.
Import Text.

Lemma mapM_z_string_JStr (tags : list string) :
  mapM (fun j => z_string (Some j)) (JStr <$> tags) = Some tags.
Proof.
  induction tags as [|t tags IH]; [reflexivity|].
  change (mapM (fun j => z_string (Some j)) (JStr <$> t :: tags))
    with (y ← z_string (Some (JStr t));
          k ← mapM (fun j => z_string (Some j)) (JStr <$> tags);
          mret (y :: k)).
  rewrite IH. reflexivity.
Qed.

Lemma ResultSchema_parse_bounds v r :
  ResultSchema_parse v = Ok r -> (6 <= length (hashtags r) <= 20)%nat.
Proof.
  destruct v as [| | | |?|fs]; try discriminate. cbn.
  destruct (z_string (assoc "title" fs)); try discriminate.
  destruct (z_string (assoc "narration" fs)); try discriminate.
  destruct (z_string (assoc "caption" fs)); try discriminate.
  unfold z_hashtags.
  destruct (assoc "hashtags" fs) as [[| | | |l|]|]; try discriminate.
  destruct (mapM _ l) as [tags|]; try discriminate.
  destruct (andb _ _) eqn:Hlen; try discriminate.
  intros [= <-]. cbn.
  apply andb_prop in Hlen as [H6 H20].
  apply Nat.leb_le in H6, H20. lia.
Qed.

Lemma ResultSchema_parse_to_json r :
  (6 <= length (hashtags r) <= 20)%nat -> ResultSchema_parse (to_json r) = Ok r.
Proof.
  intros [H6 H20]. destruct r as [t n c h].
  unfold to_json, ResultSchema_parse, z_hashtags.
  cbn [assoc String.eqb Ascii.eqb Bool.eqb z_string title narration caption hashtags].
  cbn [hashtags] in H6, H20.
  rewrite mapM_z_string_JStr.
  apply Nat.leb_le in H6, H20. rewrite H6, H20. reflexivity.
Qed.

Lemma generateStub_ok req : generateStub req = Ok Samples.stub_result.
Proof. reflexivity. Qed.

Lemma parse_or_stub_validated w req content :
  exists r, parse_or_stub w req content = Ok r /\ validated r.
Proof.
  unfold parse_or_stub, try_catch.
  destruct (JSON_parse w content) as [parsed|].
  - destruct (ResultSchema_parse parsed) as [r|m] eqn:E.
    + exists r. split; [reflexivity | by exists parsed].
    + exists Samples.stub_result. split; [reflexivity | by exists stub_out].
  - exists Samples.stub_result. split; [reflexivity | by exists stub_out].
Qed.

Lemma rbind_Ok_inv {A B} (c : Result A) (k : A -> Result B) b :
  c ≫= k = Ok b -> exists a, c = Ok a /\ k a = Ok b.
Proof. destruct c as [a|m]; cbn; [eauto | discriminate]. Qed.

Lemma generateWithOpenAI_validated w req r :
  generateWithOpenAI w req = Ok r -> validated r.
Proof.
  unfold generateWithOpenAI.
  destruct (truthy_env _ _); [|discriminate].
  destruct (fetch w _) as [|response]; [discriminate|].
  destruct (negb _); [discriminate|].
  destruct (Http.json response) as [data|]; [|discriminate].
  intros H.
  repeat (apply rbind_Ok_inv in H as (? & _ & H)).
  destruct (parse_or_stub_validated w req x2) as (r' & Hr & Hv). congruence.
Qed.

Lemma generateWithGemini_validated w req r :
  generateWithGemini w req = Ok r -> validated r.
Proof.
  unfold generateWithGemini.
  destruct (truthy_env _ _); [|discriminate].
  destruct (fetch w _) as [|response]; [discriminate|].
  destruct (negb _); [discriminate|].
  destruct (Http.json response) as [data|]; [|discriminate].
  intros H.
  repeat (apply rbind_Ok_inv in H as (? & _ & H)).
  destruct (parse_or_stub_validated w req x4) as (r' & Hr & Hv). congruence.
Qed.

Lemma generateNarration_total w req :
  exists r, generateNarration w req = Ok r /\ validated r.
Proof.
  unfold generateNarration, try_catch.
  set (provider := env_or _ _ _).
  assert (Hstub : exists r, generateStub req = Ok r /\ validated r)
    by (exists Samples.stub_result; split; [reflexivity | by exists stub_out]).
  destruct (String.eqb provider "openai").
  - destruct (generateWithOpenAI w req) as [r|m] eqn:E; [|exact Hstub].
    exists r. split; [reflexivity | by eapply generateWithOpenAI_validated].
  - destruct (String.eqb provider "gemini").
    + destruct (generateWithGemini w req) as [r|m] eqn:E; [|exact Hstub].
      exists r. split; [reflexivity | by eapply generateWithGemini_validated].
    + destruct (generateStub req) as [r|m] eqn:E; [|exact Hstub].
      exists r. split; [reflexivity | by exists stub_out].
Qed.

End NarrationSchema.

(** C10.  Whatever the environment and the providers' answers,
    [generateNarration] returns (it never throws), and the value it
    returns passes [ResultSchema]: as a run-time object its title,
    narration and caption are strings and its hashtags an array of
    strings, with between 6 and 20 entries. *)
Theorem generateNarration_schema_valid (w : Text.World) (req : Prompts.NarrationRequest) :
  exists r, Text.generateNarration w req = Ok r
            /\ Text.ResultSchema_parse (Text.to_json r) = Ok r
            /\ (6 <= length (Text.hashtags r) <= 20)%nat.
Proof.
  destruct (generateNarration_total w req) as (r & Hr & v & Hv).
  exists r. split; [exact Hr|].
  pose proof (ResultSchema_parse_bounds _ _ Hv) as Hb.
  split; [by apply ResultSchema_parse_to_json | exact Hb].
Qed.

(** ** Narration and voice without a configured provider *)







(** ** Subtitle timing *)

Section SubtitleTiming.
Import WorkerIndex.

Lemma Qnat_S (k : nat) : (Qnat (S k) == Qnat k + 1)%Q.
Proof.
  unfold Qnat. rewrite Nat2Z.inj_succ, <- Z.add_1_r, inject_Z_plus. reflexivity.
Qed.

Lemma Qnat_nonneg (k : nat) : (0 <= Qnat k)%Q.
Proof. unfold Qnat, Qle. cbn. lia. Qed.





Lemma chunk_loop_length (fuel i : nat) (words : list string) :
  ((length words - i + 7) / 8 <= fuel)%nat ->
  length (ClipProcessor.chunk_loop fuel i words) = ((length words - i + 7) / 8)%nat.
Proof.
  revert i. induction fuel as [|fuel IH]; intros i Hfuel.
  - cbn [ClipProcessor.chunk_loop length]. lia.
  - cbn [ClipProcessor.chunk_loop].
    change ClipProcessor.wordsPerChunk with 8%nat.
    destruct (Nat.ltb_spec i (length words)) as [Hlt|Hge].
    + cbn [length]. rewrite IH.
      * destruct (Nat.le_gt_cases (i + 8) (length words)) as [Hbig|Hsmall].
        -- replace (length words - i + 7)%nat
             with (length words - (i + 8) + 7 + 1 * 8)%nat by lia.
           rewrite Nat.div_add by lia. lia.
        -- rewrite (Nat.div_small (length words - (i + 8) + 7)) by lia.
           apply Nat.div_unique with (r := (length words - i - 1)%nat); lia.
      * destruct (Nat.le_gt_cases (i + 8) (length words)) as [Hbig|Hsmall].
        -- replace (length words - i + 7)%nat
             with (length words - (i + 8) + 7 + 1 * 8)%nat in Hfuel by lia.
           rewrite Nat.div_add in Hfuel by lia. lia.
        -- rewrite Nat.div_small by lia. lia.
    + cbn [length]. symmetry. apply Nat.div_small. lia.
Qed.

Lemma chunks_of_length (words : list string) :
  length (ClipProcessor.chunks_of words) = ((length words + 7) / 8)%nat.
Proof.
  unfold ClipProcessor.chunks_of. rewrite chunk_loop_length.
  - by rewrite Nat.sub_0_r.
  - rewrite Nat.sub_0_r.
    destruct (length words) as [|n]; [reflexivity|].
    apply Nat.Div0.div_le_upper_bound. lia.
Qed.

End SubtitleTiming.




(** C9, as the code has it.  A text without a sentence gives no subtitle
    entry at all, and the file written is empty; the quotient by zero is
    never used. *)
Theorem no_sentence_no_entry (text : string) (d : Q) (outputPath : string)
    (fs : gmap string string) :
  WorkerIndex.sentences_of text = [] ->
  WorkerIndex.subtitle_entries text d = []
  /\ WorkerIndex.generateSubtitles text d outputPath fs !! outputPath = Some "".
Proof.
  intros Hnone.
  assert (Hent : WorkerIndex.subtitle_entries text d = []).
  { unfold WorkerIndex.subtitle_entries. rewrite Hnone. reflexivity. }
  split; [exact Hent|].
  unfold WorkerIndex.generateSubtitles. rewrite Hent. apply lookup_insert_eq.
Qed.

Lemma no_sentence_no_entry_witness :
  WorkerIndex.sentences_of "..." = []
  /\ WorkerIndex.subtitle_entries "..." 30 = []
  /\ WorkerIndex.generateSubtitles "..." 30 "out.srt" ∅ !! "out.srt" = Some "".
Proof.
  split; [reflexivity|].
  apply (no_sentence_no_entry "..." 30 "out.srt" ∅). reflexivity.
Defined.

(** C9 as stated fails: for a punctuation-only text and for the empty
    text, at a clip duration of 30 seconds, [generateSubtitles] makes no
    entry, where one entry from 0 to 30 was specified. *)
Lemma zero_sentences_zero_entries :
  WorkerIndex.sentences_of "..." = []
  /\ length (WorkerIndex.subtitle_entries "..." 30) = 0%nat
  /\ WorkerIndex.sentences_of "" = []
  /\ length (WorkerIndex.subtitle_entries "" 30) = 0%nat
  /\ WorkerIndex.generateSubtitles "..." 30 "out.srt" ∅ !! "out.srt" = Some "".
Proof. repeat split; reflexivity. Qed.

(** ** Computations that never read the state

    [processClip] only adds to the state: it reports progress, makes
    calls and writes files, and never looks at what is there. *)

Section Oblivious.

Lemma extend_initial_l d : extend initial_state d = d.
Proof.
  destruct d as [r c f k]. unfold extend. cbn.
  by rewrite (right_id_L ∅ (∪)).
Qed.

Lemma extend_initial_r s : extend s initial_state = s.
Proof.
  destruct s as [r c f k]. unfold extend. cbn.
  by rewrite !app_nil_r, (left_id_L ∅ (∪)), N.add_0_r.
Qed.


Lemma oblivious_intro {A} (c : M A) (r : Result A) (d : State) :
  (forall s, c s = (r, extend s d)) -> oblivious c.
Proof.
  intros H s. rewrite (H initial_state), extend_initial_l. cbn. apply H.
Qed.

Lemma oblivious_ret {A} (a : A) : oblivious (mret a : M A).
Proof.
  apply (oblivious_intro _ (Ok a) initial_state).
  intros s. by rewrite extend_initial_r.
Qed.

Lemma oblivious_throw {A} m : oblivious (throw m : M A).
Proof.
  apply (oblivious_intro _ (Throw m) initial_state).
  intros s. unfold throw. by rewrite extend_initial_r.
Qed.

Lemma oblivious_lift {A} (r : Result A) : oblivious (lift r).
Proof.
  apply (oblivious_intro _ r initial_state).
  intros s. unfold lift. by rewrite extend_initial_r.
Qed.

Lemma oblivious_updateProgress v : oblivious (updateProgress v).
Proof.
  apply (oblivious_intro _ (Ok tt)
           {| reported := [v]; calls := []; files := ∅; clock := 0 |}).
  intros [r c f k]. unfold updateProgress, extend. cbn.
  by rewrite app_nil_r, (left_id_L ∅ (∪)), N.add_0_r.
Qed.

Lemma oblivious_record_call c : oblivious (record_call c).
Proof.
  apply (oblivious_intro _ (Ok tt)
           {| reported := []; calls := [c]; files := ∅; clock := 0 |}).
  intros [r cs f k]. unfold record_call, extend. cbn.
  by rewrite app_nil_r, (left_id_L ∅ (∪)), N.add_0_r.
Qed.

Lemma oblivious_write_file p c : oblivious (write_file p c).
Proof.
  apply (oblivious_intro _ (Ok tt)
           {| reported := []; calls := []; files := {[p := c]}; clock := 0 |}).
  intros [r cs f k]. unfold write_file, extend. cbn.
  by rewrite !app_nil_r, insert_union_singleton_l, N.add_0_r.
Qed.



End Oblivious.

Create HintDb oblivious.
#[export] Hint Resolve oblivious_ret oblivious_throw oblivious_lift
  oblivious_updateProgress oblivious_record_call oblivious_write_file : oblivious.



Section ObliviousProcessor.
Import ClipProcessor.
Context (A : Adapters).













End ObliviousProcessor.

(** ** What a computation reports as progress *)

Section Reports.

Lemma reports_eq {A} (L L' : list nat) (c : M A) :
  reports L c -> L = L' -> reports L' c.
Proof. by intros H <-. Qed.

Lemma reports_ret {A} (a : A) : reports [] (mret a : M A).
Proof. intros s. exists []. cbn. by rewrite app_nil_r. Qed.

Lemma reports_throw {A} m : reports [] (throw m : M A).
Proof. intros s. exists []. cbn. by rewrite app_nil_r. Qed.

Lemma reports_lift {A} (r : Result A) : reports [] (lift r).
Proof. intros s. exists []. cbn. by rewrite app_nil_r. Qed.

Lemma reports_record_call c : reports [] (record_call c).
Proof. intros s. exists []. cbn. by rewrite app_nil_r. Qed.

Lemma reports_write_file p c : reports [] (write_file p c).
Proof. intros s. exists []. cbn. by rewrite app_nil_r. Qed.

Lemma reports_simulateProcess ms : reports [] (simulateProcess ms).
Proof. intros s. exists []. cbn. by rewrite app_nil_r. Qed.

Lemma reports_Date_now : reports [] Date_now.
Proof. intros s. exists []. cbn. by rewrite app_nil_r. Qed.

Lemma reports_updateProgress v : reports [v] (updateProgress v).
Proof. intros s. exists [v]. cbn. done. Qed.

Lemma reports_bind {A B} L1 L2 (c : M A) (k : A -> M B) :
  reports L1 c -> (forall a, reports L2 (k a)) -> reports (L1 ++ L2) (c ≫= k).
Proof.
  intros Hc Hk s. unfold mbind, M_bind.
  destruct (Hc s) as (l1 & Hr1 & Hp1 & Hok1).
  destruct (c s) as [[a|m] s1]; cbn in *.
  - specialize (Hok1 eq_refl) as ->.
    destruct (Hk a s1) as (l2 & Hr2 & Hp2 & Hok2).
    exists (L1 ++ l2). rewrite Hr2, Hr1, app_assoc.
    split; [done|]. split; [by apply prefix_app|].
    intros Hok. by rewrite (Hok2 Hok).
  - exists l1. split; [done|]. split; [by apply prefix_app_r | done].
Qed.

(** A handler that reports nothing keeps what the body reported; the
    result may then be a return after a partial run. *)
Lemma reports_catch_rethrow {A} L (c : M A) :
  reports L c -> reports L (catch c (fun error => throw error)).
Proof.
  intros Hc s. unfold catch, throw.
  destruct (Hc s) as (l & Hr & Hp & Hok).
  destruct (c s) as [[a|m] s1]; cbn in *; exists l; done.
Qed.

(** A caught body that reports nothing, with a handler that reports
    nothing: the loops over the clips. *)
Lemma reports_catch_silent {A} (c : M A) (h : string -> M A) :
  reports [] c -> (forall m, reports [] (h m)) -> reports [] (catch c h).
Proof.
  intros Hc Hh s. unfold catch.
  destruct (Hc s) as (l & Hr & Hp & _).
  apply prefix_nil_inv in Hp as ->. rewrite app_nil_r in Hr.
  destruct (c s) as [[a|m] s1]; cbn in *.
  - exists []. by rewrite app_nil_r.
  - destruct (Hh m s1) as (l & Hr' & Hp' & _).
    apply prefix_nil_inv in Hp' as ->.
    exists []. by rewrite Hr', Hr.
Qed.

Lemma reports_bind_silent {A B} (c : M A) (k : A -> M B) :
  reports [] c -> (forall a, reports [] (k a)) -> reports [] (c ≫= k).
Proof. intros Hc Hk. by apply (reports_bind [] []). Qed.

End Reports.

Create HintDb silent.
#[export] Hint Resolve reports_ret reports_throw reports_lift reports_record_call
  reports_write_file reports_simulateProcess reports_Date_now : silent.

(** Decompose a goal [reports [] c] along the syntax of [c]. *)
Ltac silent_step :=
  match goal with
  | |- reports [] (_ ≫= _) => apply reports_bind_silent; [|intros ?]
  | |- reports [] (catch _ _) => apply reports_catch_silent; [|intros ?]
  | |- reports [] (match ?x with _ => _ end) => destruct x
  | |- reports [] (if ?b then _ else _) => destruct b
  | |- reports [] (let _ := _ in _) => cbv zeta
  | |- reports [] _ => solve [auto with silent]
  end.

Ltac silent_auto := repeat silent_step.

(** Decompose a goal [reports ?L c], [?L] to be found, along the binds. *)
Ltac reports_step :=
  match goal with
  | |- reports _ (updateProgress _ ≫= _) =>
      eapply reports_bind; [apply reports_updateProgress | intros ?]
  | |- reports _ (_ ≫= _) =>
      eapply (reports_bind []); [solve [silent_auto] | intros ?]
  | |- reports _ (mret _) => apply reports_ret
  end.

Section ReportsProcessor.
Import ClipProcessor.
Context (A : Adapters).

Lemma silent_spawn_arg v : reports [] (spawn_arg v).
Proof. unfold spawn_arg. silent_auto. Qed.

Lemma silent_downloadFromDrive fileId clipId :
  reports [] (downloadFromDrive A fileId clipId).
Proof. unfold downloadFromDrive. silent_auto. Qed.

Lemma silent_ingestVideo videoPath clipId : reports [] (ingestVideo A videoPath clipId).
Proof. unfold ingestVideo. pose proof silent_spawn_arg. silent_auto. Qed.

Lemma silent_generateNarrations clips : reports [] (generateNarrations A clips).
Proof.
  unfold generateNarrations. generalize 0%nat.
  induction clips as [|clip rest IH]; intros i; cbn [generateNarrations_from];
    silent_auto.
Qed.

Lemma silent_writeFile path content : reports [] (writeFile A path content).
Proof. unfold writeFile. silent_auto. Qed.

Lemma silent_generateAudioAndSubtitles infos :
  reports [] (generateAudioAndSubtitles A infos).
Proof.
  pose proof silent_writeFile.
  induction infos as [|info rest IH]; cbn [generateAudioAndSubtitles]; silent_auto.
Qed.

Lemma silent_montage_one info : reports [] (montage_one A info).
Proof. unfold montage_one. pose proof silent_spawn_arg. silent_auto. Qed.

Lemma silent_createFinalMontage infos : reports [] (createFinalMontage A infos).
Proof.
  pose proof silent_montage_one.
  induction infos as [|info rest IH]; cbn [createFinalMontage]; silent_auto.
Qed.

Lemma silent_upload_one folderId video : reports [] (upload_one A folderId video).
Proof. unfold upload_one. silent_auto. Qed.

Lemma silent_upload_loop folderId videos : reports [] (upload_loop A folderId videos).
Proof.
  pose proof silent_upload_one.
  induction videos as [|video rest IH]; cbn [upload_loop]; silent_auto.
Qed.

Lemma silent_uploadResultsToDrive videos file :
  reports [] (uploadResultsToDrive A videos file).
Proof. unfold uploadResultsToDrive. pose proof silent_upload_loop. silent_auto. Qed.

End ReportsProcessor.

#[export] Hint Resolve silent_downloadFromDrive silent_ingestVideo
  silent_generateNarrations silent_generateAudioAndSubtitles
  silent_createFinalMontage silent_uploadResultsToDrive : silent.

Lemma processClip_reports (A : ClipProcessor.Adapters) clipId jobData :
  reports (checkpoints (bool_decide (is_Some (ClipProcessor.driveFile jobData))))
          (ClipProcessor.processClip A clipId jobData).
Proof.
  unfold ClipProcessor.processClip. apply reports_catch_rethrow.
  destruct (ClipProcessor.driveFile jobData) as [file|].
  - eapply reports_eq.
    + reports_step.
      eapply (reports_bind [15]).
      { eapply reports_eq; [repeat reports_step | reflexivity]. }
      intros ?. repeat reports_step.
    + reflexivity.
  - eapply reports_eq.
    + reports_step.
      eapply (reports_bind []); [apply reports_ret | intros ?].
      repeat reports_step.
    + reflexivity.
Qed.


Lemma silent_uploadToPlatform clipId platform :
  reports [] (PublishProcessor.uploadToPlatform clipId platform).
Proof. unfold PublishProcessor.uploadToPlatform. silent_auto. Qed.

Lemma silent_savePublishReceipt E clipId platform result :
  reports [] (PublishProcessor.savePublishReceipt E clipId platform result).
Proof. unfold PublishProcessor.savePublishReceipt. silent_auto. Qed.

#[export] Hint Resolve silent_uploadToPlatform silent_savePublishReceipt : silent.







Lemma processClip_returns_at_100 (A : ClipProcessor.Adapters) clipId jobData s :
  is_ok (ClipProcessor.processClip A clipId jobData s).1 = true ->
  job_progress (ClipProcessor.processClip A clipId jobData s).2 = 100%nat.
Proof.
  intros Hret.
  destruct (processClip_reports A clipId jobData s) as (l & Hl & _ & Hok).
  specialize (Hok Hret). unfold job_progress. rewrite Hl, Hok.
  destruct (bool_decide _); cbn [checkpoints].
  - change [5; 15; 35; 55; 75; 90; 100]%nat
      with ([5; 15; 35; 55; 75; 90] ++ [100])%nat.
    by rewrite app_assoc, last_last.
  - change [5; 35; 55; 75; 90; 100]%nat with ([5; 35; 55; 75; 90] ++ [100])%nat.
    by rewrite app_assoc, last_last.
Qed.

(** C7, as the code has it.  A run of [processClip] reports a prefix of
    5, 15, 35, 55, 75, 90, 100, in this order and with nothing else, where
    15 is only there for a job that came from Drive (it follows the
    download); a run that returns has reported them all and leaves the
    job's progress at 100, a run that throws stops at the last checkpoint
    it passed.  The job's progress is the last value reported. *)
Theorem processClip_checkpoints
    (A : ClipProcessor.Adapters) (clipId : string)
    (jobData : ClipProcessor.JobData) (s : State) :
  let fromDrive := bool_decide (is_Some (ClipProcessor.driveFile jobData)) in
  let out := ClipProcessor.processClip A clipId jobData s in
  exists l,
    reported out.2 = reported s ++ l
    /\ l `prefix_of` checkpoints fromDrive
    /\ Forall (fun v => v ∈ [5; 15; 35; 55; 75; 90; 100]%nat) l
    /\ (15%nat ∈ l -> fromDrive = true)
    /\ (is_ok out.1 = true -> l = checkpoints fromDrive /\ job_progress out.2 = 100%nat).
Proof.
  intros fromDrive out.
  destruct (processClip_reports A clipId jobData s) as (l & Hl & Hpre & Hok).
  fold fromDrive in Hpre, Hok. fold out in Hl, Hok.
  exists l. split; [exact Hl|]. split; [exact Hpre|].
  assert (Hall : Forall (fun v => v ∈ [5; 15; 35; 55; 75; 90; 100]%nat)
                        (checkpoints fromDrive)).
  { destruct fromDrive; cbn; repeat constructor; set_solver. }
  destruct Hpre as [k Hk].
  split; [|split].
  - rewrite Hk in Hall. by apply Forall_app in Hall as [Hall _].
  - intros H15. destruct fromDrive; [reflexivity|].
    assert (H15' : 15%nat ∈ checkpoints false)
      by (rewrite Hk; apply elem_of_app; by left).
    apply list_elem_of_In in H15'. cbn in H15'. intuition lia.
  - intros Hret. split; [by apply Hok|].
    by apply processClip_returns_at_100.
Qed.

Lemma processClip_checkpoints_witness :
  let out := ClipProcessor.processClip Samples.adapters_ok "clip42"
               Samples.clip_job initial_state in
  is_ok out.1 = true
  /\ reported out.2 = [5; 35; 55; 75; 90; 100]%nat
  /\ job_progress out.2 = 100%nat.
Proof.
  intros out.
  destruct (processClip_checkpoints Samples.adapters_ok "clip42"
              Samples.clip_job initial_state)
    as (l & Hl & _ & _ & _ & Hok).
  assert (Hret : is_ok out.1 = true) by reflexivity.
  destruct (Hok Hret) as [Hfull Hprog].
  split; [exact Hret|]. split; [|exact Hprog].
  fold out in Hl. rewrite Hl, Hfull. reflexivity.
Defined.

(** C7 as stated fails: the run for a local clip (a job made by
    [createProcessClipJob]) never reports 15, and a run whose ingest step
    fails reports 5 only. *)
Lemma local_run_skips_15 :
  is_ok (ClipProcessor.processClip Samples.adapters_ok "clip42"
           Samples.clip_job initial_state).1 = true
  /\ reported (ClipProcessor.processClip Samples.adapters_ok "clip42"
                 Samples.clip_job initial_state).2
     = [5; 35; 55; 75; 90; 100]%nat
  /\ is_ok (ClipProcessor.processClip Samples.adapters_ingest_fails "clip42"
              Samples.clip_job initial_state).1 = false
  /\ reported (ClipProcessor.processClip Samples.adapters_ingest_fails "clip42"
                 Samples.clip_job initial_state).2
     = [5]%nat.
Proof. repeat split; vm_compute; reflexivity. Qed.

(** ** Inversion of returning computations *)

Section Inversion.

Lemma bind_Ok_inv {A B} (c : M A) (k : A -> M B) s b s' :
  (c ≫= k) s = (Ok b, s') ->
  exists a s1, c s = (Ok a, s1) /\ k a s1 = (Ok b, s').
Proof.
  unfold mbind, M_bind. destruct (c s) as [[a|m] s1]; [eauto | discriminate].
Qed.


Lemma catch_Ok_inv {A} (c : M A) (h : string -> M A) s a s' :
  catch c h s = (Ok a, s') ->
  c s = (Ok a, s') \/ exists m s1, c s = (Throw m, s1) /\ h m s1 = (Ok a, s').
Proof.
  unfold catch. destruct (c s) as [[a0|m] s1]; [|eauto].
  intros [= -> ->]. by left.
Qed.

Lemma catch_rethrow {A} (c : M A) s :
  catch c (fun error => throw error) s = c s.
Proof. unfold catch, throw. by destruct (c s) as [[a|m] s1]. Qed.

Lemma mret_inv {A} (a b : A) (s s' : State) :
  (mret a : M A) s = (Ok b, s') -> a = b /\ s = s'.
Proof. by intros [= -> ->]. Qed.

Lemma lift_Ok_inv {A} (r : Result A) (s : State) b s' :
  lift r s = (Ok b, s') -> r = Ok b /\ s = s'.
Proof. unfold lift. by intros [= -> ->]. Qed.

End Inversion.

(** Peel the binds of a hypothesis [c s = (Ok _, _)]. *)
Ltac inv_ok H :=
  repeat match type of H with
    | (_ ≫= _) _ = (Ok _, _) =>
        let E := fresh "E" in
        apply bind_Ok_inv in H as (? & ? & E & H)
    | (mret _) _ = (Ok _, _) => apply mret_inv in H as [? ?]; subst
    end.

Ltac inv_lift :=
  repeat match goal with
    | H : lift _ _ = (Ok _, _) |- _ => apply lift_Ok_inv in H as [H ?]; subst
    end.

(** ** The loops over the clips: never a throw, and only clips whose
    stage succeeded go on *)

Section ClipLoops.
Import ClipProcessor.
Context (A : Adapters).





Lemma generateNarrations_from_sound clips :
  forall i s l s',
    generateNarrations_from A i clips s = (Ok l, s') ->
    forall n, n ∈ l ->
      generateNarration A (index n) narration_request = Ok (narration n).
Proof.
  induction clips as [|clip rest IH]; intros i s l s' H n Hn.
  - apply mret_inv in H as [<- _]. by apply elem_of_nil in Hn.
  - cbn [generateNarrations_from] in H. inv_ok H.
    apply elem_of_app in Hn as [Hn|Hn]; [|by eapply IH].
    apply catch_Ok_inv in E as [E|(m & s1 & _ & E)].
    + inv_ok E. inv_lift.
      apply list_elem_of_singleton in Hn as ->. cbn. assumption.
    + apply mret_inv in E as [<- _]. by apply elem_of_nil in Hn.
Qed.

Lemma writeFile_Ok_inv path content s u s' :
  writeFile A path content s = (Ok u, s') -> writeFile_error A path = None.
Proof.
  unfold writeFile. intros H. inv_ok H.
  destruct (writeFile_error A path); [discriminate | reflexivity].
Qed.

Lemma generateAudioAndSubtitles_sound infos :
  forall s l s',
    generateAudioAndSubtitles A infos s = (Ok l, s') ->
    forall a, a ∈ l ->
      a_info a ∈ infos
      /\ audioPath a = audio_path A (index (a_info a))
      /\ srtPath a = srt_path A (index (a_info a))
      /\ is_ok (synthesizeVoice A (Text.narration (narration (a_info a)))
                  (audioPath a)) = true
      /\ writeFile_error A (srtPath a) = None.
Proof.
  induction infos as [|info rest IH]; intros s l s' H a Ha.
  - apply mret_inv in H as [<- _]. by apply elem_of_nil in Ha.
  - cbn [generateAudioAndSubtitles] in H. inv_ok H.
    apply elem_of_app in Ha as [Ha|Ha].
    + apply catch_Ok_inv in E as [E|(m & s1 & _ & E)].
      * cbv zeta in E. inv_ok E. inv_lift.
        match goal with
        | Hw : writeFile A _ _ _ = _ |- _ => apply writeFile_Ok_inv in Hw
        end.
        match goal with
        | Hv : synthesizeVoice A _ _ = Ok _ |- _ => rename Hv into Hvoice
        end.
        apply list_elem_of_singleton in Ha as ->. cbn.
        repeat split; [by left | by rewrite Hvoice | assumption].
      * apply mret_inv in E as [<- _]. by apply elem_of_nil in Ha.
    + destruct (IH _ _ _ E0 a Ha) as (Hin & Hrest).
      split; [by right | exact Hrest].
Qed.

Lemma montage_one_sound info s v s' :
  montage_one A info s = (Ok v, s') ->
  f_info v = info
  /\ finalPath v = final_path A (index (a_info info))
  /\ exists clip, clipPath (a_info info) = JStr clip
       /\ auto_edit_py A clip (audioPath info) (srtPath info) (finalPath v) = 0%Z.
Proof.
  unfold montage_one. intros H. cbv zeta in H.
  apply bind_Ok_inv in H as (arg & s1 & E & H).
  apply bind_Ok_inv in H as (u & s2 & _ & H).
  unfold spawn_arg in E.
  destruct (clipPath (a_info info)) as [| | |clip| |] eqn:Hclip;
    try discriminate E.
  apply mret_inv in E as [<- _].
  destruct (Z.eqb_spec
              (auto_edit_py A clip (audioPath info) (srtPath info)
                 (final_path A (index (a_info info)))) 0) as [Hcode|Hcode];
    [|discriminate H].
  apply mret_inv in H as [<- _]. cbn. eauto.
Qed.

Lemma createFinalMontage_sound infos :
  forall s l s',
    createFinalMontage A infos s = (Ok l, s') ->
    forall v, v ∈ l ->
      f_info v ∈ infos
      /\ finalPath v = final_path A (index (a_info (f_info v)))
      /\ exists clip, clipPath (a_info (f_info v)) = JStr clip
           /\ auto_edit_py A clip (audioPath (f_info v)) (srtPath (f_info v))
                (finalPath v) = 0%Z.
Proof.
  induction infos as [|info rest IH]; intros s l s' H v Hv.
  - apply mret_inv in H as [<- _]. by apply elem_of_nil in Hv.
  - cbn [createFinalMontage] in H. inv_ok H.
    apply elem_of_app in Hv as [Hv|Hv].
    + apply catch_Ok_inv in E as [E|(m & s1 & _ & E)].
      * inv_ok E. apply list_elem_of_singleton in Hv as ->.
        match goal with
        | Hm : montage_one A _ _ = _ |- _ =>
            apply montage_one_sound in Hm as (Hinfo & Hpath & Hclip)
        end.
        rewrite Hinfo. split; [by left | by split].
      * apply mret_inv in E as [<- _]. by apply elem_of_nil in Hv.
    + destruct (IH _ _ _ E0 v Hv) as (Hin & Hrest).
      split; [by right | exact Hrest].
Qed.

(** A run of [processClip] that returns: its flag, and its final videos. *)
Lemma processClip_Ok_inv clipId jobData s r s' :
  processClip A clipId jobData s = (Ok r, s') ->
  success r = true /\ forall v, v ∈ finalVideos r -> stages_succeeded A v.
Proof.
  unfold processClip. rewrite catch_rethrow. intros H. inv_ok H.
  cbn [success finalVideos]. split; [reflexivity|].
  intros v Hv. unfold stages_succeeded. cbv zeta.
  match goal with
  | Hm : createFinalMontage A _ _ = _ |- _ =>
      destruct (createFinalMontage_sound _ _ _ _ Hm v Hv) as (Hin & Hpath & Hclip)
  end.
  match goal with
  | Ha : generateAudioAndSubtitles A _ _ = _ |- _ =>
      destruct (generateAudioAndSubtitles_sound _ _ _ _ Ha _ Hin)
        as (Hin' & Haudio & Hsrt & Hvoice & Hwrite)
  end.
  match goal with
  | Hn : generateNarrations A _ _ = _ |- _ =>
      pose proof (generateNarrations_from_sound _ _ _ _ _ Hn _ Hin') as Hnarr
  end.
  repeat split; assumption.
Qed.

End ClipLoops.




(** ** Which failures abort a run *)

Section Abort.
Import ClipProcessor.
Context (A : Adapters).



Lemma ingestVideo_exit_nonzero clipId s :
  code (ingest_exit A clipId) <> 0%Z ->
  ingestVideo A (Some (JStr (local_path A clipId))) clipId s
  = (Throw ("Ingest failed with code " +:+ pretty (code (ingest_exit A clipId))
            +:+ ": " +:+ stderr (ingest_exit A clipId)),
     {| reported := reported s;
        calls := calls s ++ [CallIngest (local_path A clipId)];
        files := files s; clock := clock s |}).
Proof.
  intros Hcode. unfold ingestVideo, spawn_arg, mbind, M_bind.
  cbn [mret M_ret record_call]. fold (ingest_exit A clipId).
  apply Z.eqb_neq in Hcode. rewrite Hcode. reflexivity.
Qed.

Lemma bind_ret_l {X Y} (a : X) (k : X -> M Y) s : (mret a ≫= k) s = k a s.
Proof. reflexivity. Qed.

Lemma bind_updateProgress {Y} v (k : unit -> M Y) s :
  (updateProgress v ≫= k) s = k tt (updateProgress v s).2.
Proof. reflexivity. Qed.


Lemma processClip_local_aborts clipId jobData s :
  driveFile jobData = None ->
  code (ingest_exit A clipId) <> 0%Z ->
  processClip A clipId jobData s
  = (Throw ("Ingest failed with code " +:+ pretty (code (ingest_exit A clipId))
            +:+ ": " +:+ stderr (ingest_exit A clipId)),
     {| reported := reported s ++ [5%nat];
        calls := calls s ++ [CallIngest (local_path A clipId)];
        files := files s; clock := clock s |}).
Proof.
  intros Hlocal Hcode. unfold processClip. rewrite catch_rethrow, Hlocal.
  rewrite bind_updateProgress, bind_ret_l.
  unfold mbind, M_bind.
  change (samplesDir A +:+ "/clips/" +:+ clipId +:+ ".mp4") with (local_path A clipId).
  by rewrite ingestVideo_exit_nonzero.
Qed.


End Abort.




(** ** Retries *)

Section Retry.
Context (opts : Queue.JobOptions) (process : nat -> M Worker.JobResult).
Hypothesis always_fails : forall k s, is_ok (process k s).1 = false.

Lemma run_attempts_retry (budget retryCount : nat) delays s m s1 :
  process retryCount s = (Throw m, s1) ->
  Queue.run_attempts opts process (S (S budget)) retryCount delays s
  = Queue.run_attempts opts process (S budget) (S retryCount)
      (delays ++ [Queue.backoff_delay opts retryCount])
      (simulateProcess (Queue.backoff_delay opts retryCount) s1).2.
Proof.
  intros H. change (Queue.run_attempts opts process (S (S budget)) retryCount delays s)
    with (match process retryCount s with
          | (Ok r, s') =>
              ({| Queue.status := Queue.Done; Queue.retryCount := retryCount;
                  Queue.attemptsMade := S retryCount; Queue.lastError := None;
                  Queue.result := Some r; Queue.backoffs := delays |}, s')
          | (Throw m, s') =>
              Queue.run_attempts opts process (S budget) (S retryCount)
                (delays ++ [Queue.backoff_delay opts retryCount])
                (simulateProcess (Queue.backoff_delay opts retryCount) s').2
          end).
  by rewrite H.
Qed.

(** A processor that fails every time uses up the whole budget. *)
Lemma run_attempts_always_fails (budget : nat) :
  forall retryCount delays s,
    let out := Queue.run_attempts opts process (S budget) retryCount delays s in
    Queue.status out.1 = Queue.Error
    /\ Queue.attemptsMade out.1 = (retryCount + S budget)%nat
    /\ Queue.retryCount out.1 = (retryCount + budget)%nat
    /\ Queue.backoffs out.1
       = delays ++ (Queue.backoff_delay opts <$> seq retryCount budget)
    /\ is_Some (Queue.lastError out.1)
    /\ Queue.result out.1 = None.
Proof.
  induction budget as [|budget IH]; intros retryCount delays s out; subst out.
  - cbn [Queue.run_attempts]. pose proof (always_fails retryCount s) as Hf.
    destruct (process retryCount s) as [[r|m] s1]; [discriminate|].
    cbn. rewrite app_nil_r, Nat.add_0_r, Nat.add_1_r. eauto 10.
  - pose proof (always_fails retryCount s) as Hf.
    destruct (process retryCount s) as [[r|m] s1] eqn:Hp; [discriminate|].
    rewrite (run_attempts_retry _ _ _ _ _ _ Hp).
    match goal with
    | |- context [Queue.run_attempts opts process (S budget) ?rc ?ds ?st] =>
        destruct (IH rc ds st) as (Hst & Hatt & Hrc & Hback & Herr & Hres)
    end.
    rewrite Hst, Hatt, Hrc, Hback. cbn [seq fmap list_fmap].
    rewrite <- app_assoc. cbn [app].
    repeat split; try done; lia.
Qed.

End Retry.

(** C4.  A job whose processing fails at every attempt, whatever the
    collaborators do, is started three times and no more: after the first
    failure it is put back after 2000 ms, after the second after 4000 ms
    (the base delay times 2 to the number of retries so far), and the third
    failure leaves it in error with that failure's message. *)
Theorem retry_bound
    (A : nat -> ClipProcessor.Adapters) (E : PublishProcessor.Env)
    (data : ClipProcessor.JobData) (s : State) :
  (forall k s0, is_ok (Worker.processJob (A k) E data s0).1 = false) ->
  let out := Queue.run_job (fun k => Worker.processJob (A k) E data) s in
  Queue.status out.1 = Queue.Error
  /\ Queue.attemptsMade out.1 = Queue.attempts Queue.defaultJobOptions
  /\ Queue.attemptsMade out.1 = 3%nat
  /\ Queue.retryCount out.1 = 2%nat
  /\ Queue.backoffs out.1 = [2000 * 2 ^ 0; 2000 * 2 ^ 1]%N
  /\ Queue.result out.1 = None
  /\ exists m0 s1 m1 s2 m2 s3,
      Worker.processJob (A 0%nat) E data s = (Throw m0, s1)
      /\ Worker.processJob (A 1%nat) E data (wait 2000 s1) = (Throw m1, s2)
      /\ Worker.processJob (A 2%nat) E data (wait 4000 s2) = (Throw m2, s3)
      /\ Queue.lastError out.1 = Some m2
      /\ out.2 = s3.
Proof.
  intros Hfail out.
  destruct (run_attempts_always_fails Queue.defaultJobOptions
              (fun k => Worker.processJob (A k) E data) Hfail 2 0%nat [] s)
    as (Hst & Hatt & Hrc & Hback & _ & Hres).
  fold (Queue.run_job (fun k => Worker.processJob (A k) E data) s) in *.
  fold out in Hst, Hatt, Hrc, Hback, Hres.
  repeat (split; [done|]).
  subst out. unfold Queue.run_job. cbn [Queue.attempts Queue.defaultJobOptions].
  cbn [Queue.run_attempts].
  pose proof (Hfail 0%nat s) as H0.
  destruct (Worker.processJob (A 0%nat) E data s) as [[r|m0] s1] eqn:E0;
    [discriminate|].
  cbv zeta.
  change (simulateProcess (Queue.backoff_delay Queue.defaultJobOptions 0) s1).2
    with (wait 2000 s1).
  pose proof (Hfail 1%nat (wait 2000 s1)) as H1.
  destruct (Worker.processJob (A 1%nat) E data (wait 2000 s1)) as [[r|m1] s2] eqn:E1;
    [discriminate|].
  cbv zeta.
  change (simulateProcess (Queue.backoff_delay Queue.defaultJobOptions 1) s2).2
    with (wait 4000 s2).
  pose proof (Hfail 2%nat (wait 4000 s2)) as H2.
  destruct (Worker.processJob (A 2%nat) E data (wait 4000 s2)) as [[r|m2] s3] eqn:E2;
    [discriminate|].
  exists m0, s1, m1, s2, m2, s3. done.
Qed.

Lemma processJob_ingest_fails_always (k : nat) (s0 : State) :
  is_ok (Worker.processJob Samples.adapters_ingest_fails Samples.publish_env
           Samples.clip_job s0).1 = false.
Proof.
  unfold Worker.processJob. rewrite catch_rethrow.
  change (String.eqb (ClipProcessor.type Samples.clip_job) "process-clip") with true.
  cbv iota. change (VoiceGen.falsy_opt (ClipProcessor.clipId Samples.clip_job))
    with (Some "clip42").
  cbv iota. unfold mbind, M_bind.
  rewrite (processClip_local_aborts Samples.adapters_ingest_fails "clip42"
             Samples.clip_job s0 eq_refl); [reflexivity | discriminate].
Qed.

Lemma retry_bound_witness :
  let out := Queue.run_job
               (fun _ => Worker.processJob Samples.adapters_ingest_fails
                           Samples.publish_env Samples.clip_job)
               initial_state in
  (forall (k : nat) s0,
      is_ok (Worker.processJob Samples.adapters_ingest_fails Samples.publish_env
               Samples.clip_job s0).1 = false)
  /\ Queue.status out.1 = Queue.Error
  /\ Queue.attemptsMade out.1 = 3%nat
  /\ Queue.backoffs out.1 = [2000; 4000]%N.
Proof.
  intros out.
  destruct (retry_bound (fun _ => Samples.adapters_ingest_fails) Samples.publish_env
              Samples.clip_job initial_state processJob_ingest_fails_always)
    as (Hst & _ & Hatt & _ & Hback & _).
  split; [exact processJob_ingest_fails_always|].
  split; [exact Hst|]. split; [exact Hatt | exact Hback].
Defined.

(** ** Publish receipts *)

Section Receipts.
Import PublishProcessor.
Context (E : Env).

Lemma string_length_app (x y : string) :
  String.length (x +:+ y) = (String.length x + String.length y)%nat.
Proof. induction x as [|c x IH]; simpl; [reflexivity | by rewrite IH]. Qed.

Lemma string_app_inj_r (x y z : string) : x +:+ z = y +:+ z -> x = y.
Proof.
  revert y. induction x as [|c x IH]; intros [|d y] H.
  - reflexivity.
  - exfalso. apply (f_equal String.length) in H.
    rewrite !string_length_app in H. cbn [String.length] in H. lia.
  - exfalso. apply (f_equal String.length) in H.
    rewrite !string_length_app in H. cbn [String.length] in H. lia.
  - simpl in H. injection H as -> H. f_equal. by apply IH.
Qed.

(** Receipts written at different times have different names. *)
Lemma receipt_path_inj clipId platform (t t' : N) :
  receipt_path E clipId platform t = receipt_path E clipId platform t' -> t = t'.
Proof.
  unfold receipt_path. intros H.
  repeat apply String.app_inj in H.
  apply string_app_inj_r in H. by apply (inj pretty) in H.
Qed.

Lemma publishContent_run clipId platform s :
  supported platform ->
  writeFile_error E (receipt_path E clipId platform (receipt_time s)) = None ->
  is_ok (publishContent E clipId platform s).1 = true
  /\ (publishContent E clipId platform s).2
     = {| reported := reported s ++ publish_checkpoints;
          calls := calls s ++ [CallPlatformUpload clipId platform];
          files := <[receipt_path E clipId platform (receipt_time s)
                     := ReceiptFile (receipt_of E clipId platform s)]> (files s);
          clock := receipt_time s |}.
Proof.
  intros Hsup Hw. unfold publishContent. rewrite catch_rethrow.
  unfold mbind, M_bind, uploadToPlatform, savePublishReceipt, mbind, M_bind.
  cbn [updateProgress simulateProcess record_call Date_now reported calls files clock].
  destruct Hsup as [-> | [-> | ->]];
    cbn [String.eqb Ascii.eqb Bool.eqb mret M_ret reported calls files clock
         up_publishId up_url];
    fold (receipt_time s); rewrite Hw;
    cbn [write_file updateProgress reported calls files clock mret M_ret fst snd is_ok];
    (split; [reflexivity|]); f_equal;
    rewrite <- !app_assoc; reflexivity.
Qed.

Lemma receipts_for_insert_fresh clipId platform path r
    (fs : gmap string FileContent) :
  fs !! path = None ->
  r_clipId r = clipId -> r_platform r = platform ->
  length (receipts_for clipId platform (<[path := ReceiptFile r]> fs))
  = S (length (receipts_for clipId platform fs)).
Proof.
  intros Hfresh Hc Hp. unfold receipts_for.
  rewrite (map_to_list_insert fs path (ReceiptFile r) Hfresh).
  rewrite filter_cons_True; [reflexivity|].
  cbn. rewrite Hc, Hp, !String.eqb_refl. reflexivity.
Qed.

End Receipts.

(** C2, as the code has it.  Nothing looks for an earlier receipt and
    there is no force flag: every publish that reaches the end writes a
    receipt, in a file whose name carries the time of writing (the worker's
    [savePublishReceipt]) or the fresh external id (the publishers'
    [writeReceiptFile], unless DRY_RUN is set).  Receipts written at
    different times have different names, so a publish whose receipt name
    is not taken adds one receipt for the clip and platform, whatever
    receipts they already have. *)
Theorem publish_writes_a_receipt_each_time
    (E : PublishProcessor.Env) (clipId platform : string) (s : State)
    (w : Tiktok.World) (options : Tiktok.PublishOptions)
    (fs : gmap string Tiktok.PublishResult) :
  let path := PublishProcessor.receipt_path E clipId platform (receipt_time s) in
  let out := PublishProcessor.publishContent E clipId platform s in
  supported platform ->
  PublishProcessor.writeFile_error E path = None ->
  is_ok out.1 = true
  /\ files out.2 = <[path := ReceiptFile (receipt_of E clipId platform s)]> (files s)
  /\ clock out.2 = (clock s + 3500)%N
  /\ (forall t, t <> receipt_time s ->
        PublishProcessor.receipt_path E clipId platform t <> path)
  /\ (files s !! path = None ->
      length (PublishProcessor.receipts_for clipId platform (files out.2))
      = S (length (PublishProcessor.receipts_for clipId platform (files s))))
  /\ (Tiktok.dry_run w = false ->
      (Tiktok.publish w options fs).2
      = <[Tiktok.receipt_file w "tiktok" (Tiktok.externalId (Tiktok.publish w options fs).1)
          := (Tiktok.publish w options fs).1]> fs).
Proof.
  intros path out Hsup Hw.
  destruct (publishContent_run E clipId platform s Hsup Hw) as [Hok Hout].
  fold out in Hok, Hout. fold path in Hout.
  split; [exact Hok|]. rewrite Hout. cbn [files clock].
  split; [reflexivity|].
  split; [unfold receipt_time; lia|].
  split; [|split].
  - intros t Ht Heq. apply Ht. by eapply receipt_path_inj.
  - intros Hfresh. by apply receipts_for_insert_fresh.
  - intros Hdry. unfold Tiktok.publish. rewrite Hdry. reflexivity.
Qed.

Lemma publish_writes_a_receipt_each_time_witness :
  let first := PublishProcessor.publishContent Samples.publish_env "clip42" "tiktok"
                 initial_state in
  let second := PublishProcessor.publishContent Samples.publish_env "clip42" "tiktok"
                  first.2 in
  supported "tiktok"
  /\ is_ok second.1 = true
  /\ length (PublishProcessor.receipts_for "clip42" "tiktok" (files second.2))
     = S (length (PublishProcessor.receipts_for "clip42" "tiktok" (files first.2))).
Proof.
  intros first second.
  assert (Hsup : supported "tiktok") by (right; left; reflexivity).
  destruct (publish_writes_a_receipt_each_time Samples.publish_env "clip42" "tiktok"
              first.2 Samples.tiktok_world Samples.tiktok_options ∅ Hsup eq_refl)
    as (Hok & _ & _ & _ & Hcount & _).
  split; [exact Hsup|]. split; [exact Hok|].
  apply Hcount. vm_compute. reflexivity.
Defined.

(** C2 as stated fails: publishing the same clip to the same platform
    twice, one publish after the other (the processor takes no force
    flag), leaves two receipts for the pair. *)
Lemma second_publish_writes_second_receipt :
  let first := PublishProcessor.publishContent Samples.publish_env "clip42" "tiktok"
                 initial_state in
  let second := PublishProcessor.publishContent Samples.publish_env "clip42" "tiktok"
                  first.2 in
  is_ok first.1 = true
  /\ is_ok second.1 = true
  /\ length (PublishProcessor.receipts_for "clip42" "tiktok" (files first.2)) = 1%nat
  /\ length (PublishProcessor.receipts_for "clip42" "tiktok" (files second.2)) = 2%nat
  /\ is_Some (files second.2 !! "/samples/receipts/clip42_tiktok_3500.json")
  /\ is_Some (files second.2 !! "/samples/receipts/clip42_tiktok_7000.json").
Proof. vm_compute. repeat split; eauto. Qed.

(** * Further properties of the code *)

(** ** Words, chunks and lines *)

Section SplitJoin.

Lemma split_go_nonempty sep merge in_run s : split_go sep merge in_run s <> [].
Proof.
  revert in_run. induction s as [|c s IH]; intros in_run; cbn; [done|].
  destruct (sep c).
  - destruct (merge && in_run); [apply IH | done].
  - destruct (split_go sep merge false s); done.
Qed.

Lemma join_cons sep p ps :
  ps <> [] -> join sep (p :: ps) = p +:+ sep +:+ join sep ps.
Proof. destruct ps; [done | reflexivity]. Qed.

Lemma string_app_cons x (a b : string) : String x a +:+ b = String x (a +:+ b).
Proof. reflexivity. Qed.

Lemma string_app_assoc (a b c : string) : (a +:+ b) +:+ c = a +:+ b +:+ c.
Proof.
  induction a as [|x a IH]; [reflexivity|].
  rewrite !string_app_cons. f_equal. exact IH.
Qed.

Lemma string_app_nil_r (a : string) : a +:+ "" = a.
Proof.
  induction a as [|x a IH]; [reflexivity|].
  rewrite string_app_cons. f_equal. exact IH.
Qed.

Lemma join_app sep (a b : list string) :
  a <> [] -> b <> [] -> join sep (a ++ b) = join sep a +:+ sep +:+ join sep b.
Proof.
  intros Ha Hb. induction a as [|p a IH]; [done|].
  destruct a as [|q a].
  - cbn [app]. by rewrite join_cons.
  - change ((p :: q :: a) ++ b) with (p :: ((q :: a) ++ b)).
    rewrite join_cons by done. rewrite IH by done.
    rewrite (join_cons sep p (q :: a)) by done.
    by rewrite !string_app_assoc.
Qed.

(** [text.split(' ').join(' ')] is the text. *)
Lemma join_split_spaces_go in_run (s : string) :
  join " " (split_go is_space_char false in_run s) = s.
Proof.
  revert in_run. induction s as [|c s IH]; intros in_run; [reflexivity|].
  cbn [split_go]. destruct (is_space_char c) eqn:Hc.
  - cbn [andb]. rewrite join_cons by apply split_go_nonempty.
    rewrite IH. unfold is_space_char in Hc. apply Ascii.eqb_eq in Hc as ->.
    reflexivity.
  - specialize (IH false).
    destruct (split_go is_space_char false false s) as [|p ps] eqn:Hs;
      [by apply split_go_nonempty in Hs|].
    destruct ps as [|q ps].
    + cbn [join] in *. by rewrite IH.
    + rewrite join_cons by done. rewrite join_cons in IH by done.
      rewrite string_app_cons. by rewrite IH.
Qed.

Lemma chunk_loop_join (fuel i : nat) (words : list string) :
  ((length words - i + 7) / 8 <= fuel)%nat ->
  (i < length words)%nat ->
  join " " (ClipProcessor.chunk_loop fuel i words) = join " " (drop i words).
Proof.
  revert i. induction fuel as [|fuel IH]; intros i Hfuel Hi.
  - exfalso.
    assert (1 <= (length words - i + 7) / 8)%nat; [|lia].
    apply Nat.div_le_lower_bound; lia.
  - cbn [ClipProcessor.chunk_loop].
    change ClipProcessor.wordsPerChunk with 8%nat.
    destruct (Nat.ltb_spec i (length words)) as [_|?]; [|lia].
    destruct (Nat.le_gt_cases (length words) (i + 8)) as [Hlast|Hmore].
    + assert (Hnone : ClipProcessor.chunk_loop fuel (i + 8) words = []).
      { destruct fuel; [reflexivity|]. cbn [ClipProcessor.chunk_loop].
        destruct (Nat.ltb_spec (i + 8) (length words)); [lia | reflexivity]. }
      rewrite Hnone. cbn [join].
      rewrite take_ge; [reflexivity|]. rewrite length_drop. lia.
    + rewrite join_cons.
      * rewrite IH; [| |lia].
        -- rewrite <- (take_drop 8 (drop i words)) at 2.
           rewrite drop_drop. rewrite join_app; [reflexivity| |].
           ++ intros Hnil. apply (f_equal length) in Hnil.
              rewrite length_take, length_drop in Hnil. cbn [length] in Hnil. lia.
           ++ intros Hnil. apply (f_equal length) in Hnil.
              rewrite length_drop in Hnil. cbn [length] in Hnil. lia.
        -- replace (length words - i + 7)%nat
             with (length words - (i + 8) + 7 + 1 * 8)%nat in Hfuel by lia.
           rewrite Nat.div_add in Hfuel by lia. lia.
      * destruct fuel as [|fuel'].
        -- exfalso.
           replace (length words - i + 7)%nat
             with (length words - (i + 8) + 7 + 1 * 8)%nat in Hfuel by lia.
           rewrite Nat.div_add in Hfuel by lia.
           assert (1 <= (length words - (i + 8) + 7) / 8)%nat; [|lia].
           apply Nat.div_le_lower_bound; lia.
        -- cbn [ClipProcessor.chunk_loop].
           destruct (Nat.ltb_spec (i + 8) (length words)); [done | lia].
Qed.

End SplitJoin.

(** X1.  [generateSimpleSRT] loses no word and adds none: the lines of
    its entries, joined again by single spaces, are the text it was
    given, whatever the text. *)
Theorem simple_srt_lines_rebuild_text (text : string) :
  join " " (line <$> ClipProcessor.simple_entries text) = text.
Proof.
  unfold ClipProcessor.simple_entries.
  set (words := split_spaces text).
  assert (Hlines : line <$> imap (ClipProcessor.simple_entry
                                    (ClipProcessor.simple_duration words))
                              (ClipProcessor.chunks_of words)
                   = ClipProcessor.chunks_of words).
  { generalize (ClipProcessor.simple_duration words).
    generalize (ClipProcessor.chunks_of words). intros l q.
    change (ClipProcessor.simple_entry q) with
      (fun i c => ClipProcessor.simple_entry q (0 + i) c).
    generalize 0%nat. induction l as [|c l IH]; intros n; [reflexivity|].
    cbn [imap fmap list_fmap]. f_equal.
    etrans; [|apply (IH (S n))]. f_equal. apply imap_ext. intros i x _.
    cbn. by rewrite Nat.add_succ_r. }
  rewrite Hlines. unfold ClipProcessor.chunks_of.
  assert (Hne : words <> []) by apply split_go_nonempty.
  rewrite chunk_loop_join.
  - rewrite drop_0. apply join_split_spaces_go.
  - rewrite Nat.sub_0_r. destruct (length words) as [|n]; [reflexivity|].
    apply Nat.Div0.div_le_upper_bound. lia.
  - destruct words; [done | cbn; lia].
Qed.

(** ** The timing of the simple subtitles *)

Section SimpleTiming.

Lemma Qnat_inj_le (a b : Z) : (a <= b)%Z -> (inject_Z a <= inject_Z b)%Q.
Proof. intros H. by rewrite <- Zle_Qle. Qed.

(** Entry [k] exists only when more than [8 * k] words are there. *)
Lemma chunks_of_lookup_words (words : list string) (k : nat) c :
  ClipProcessor.chunks_of words !! k = Some c -> (8 * k + 1 <= length words)%nat.
Proof.
  intros Hk. apply lookup_lt_Some in Hk. rewrite chunks_of_length in Hk.
  destruct (Nat.le_gt_cases (8 * k + 1) (length words)) as [|Hlt]; [done|].
  exfalso. apply (Nat.lt_irrefl k). eapply Nat.lt_le_trans; [exact Hk|].
  apply Nat.lt_succ_r. apply Nat.Div0.div_lt_upper_bound. lia.
Qed.

Lemma simple_duration_words (words : list string) (n : nat) :
  (n <= length words)%nat ->
  (Qnat n * (2 # 5) <= ClipProcessor.simple_duration words)%Q.
Proof.
  intros Hn. unfold ClipProcessor.simple_duration, ClipProcessor.wordsPerSecond.
  eapply Qle_trans; [|apply Q.le_max_r].
  assert (Hq : (Qnat n <= Qnat (length words))%Q).
  { unfold Qnat. apply Qnat_inj_le. lia. }
  assert (Hdiv : (Qnat (length words) / (5 # 2) == Qnat (length words) * (2 # 5))%Q)
    by (field).
  rewrite Hdiv. lra.
Qed.

End SimpleTiming.

(** X2.  The entries of [generateSimpleSRT] tile the time line: every
    entry starts before it ends, lasts at most three seconds, and the next
    entry starts exactly where it ends. *)
Theorem simple_srt_entries_contiguous (text : string) (k : nat) (e : SrtEntry) :
  ClipProcessor.simple_entries text !! k = Some e ->
  (startTime e < endTime e)%Q
  /\ (endTime e - startTime e <= 3)%Q
  /\ forall e', ClipProcessor.simple_entries text !! S k = Some e' ->
       (startTime e' == endTime e)%Q.
Proof.
  unfold ClipProcessor.simple_entries. cbv zeta.
  set (words := split_spaces text).
  rewrite list_lookup_imap. intros He.
  destruct (ClipProcessor.chunks_of words !! k) as [c|] eqn:Hc; [|discriminate].
  injection He as <-. cbn [startTime endTime ClipProcessor.simple_entry].
  pose proof (chunks_of_lookup_words _ _ _ Hc) as Hw.
  pose proof (simple_duration_words words (8 * k + 1) Hw) as Hd.
  assert (Hk : (Qnat (8 * k + 1) == 8 * Qnat k + 1)%Q).
  { unfold Qnat.
    replace (Z.of_nat (8 * k + 1)) with (8 * Z.of_nat k + 1)%Z by lia.
    rewrite inject_Z_plus, inject_Z_mult. reflexivity. }
  rewrite Hk in Hd.
  pose proof (Qnat_nonneg k) as Hk0.
  set (d := ClipProcessor.simple_duration words) in *.
  split; [|split].
  - apply Q.min_glb_lt; lra.
  - pose proof (Q.le_min_l ((Qnat k + 1) * 3) d). lra.
  - intros e'. rewrite list_lookup_imap. intros He'.
    destruct (ClipProcessor.chunks_of words !! S k) as [c'|] eqn:Hc'; [|discriminate].
    injection He' as <-. cbn [startTime ClipProcessor.simple_entry].
    pose proof (chunks_of_lookup_words _ _ _ Hc') as Hw'.
    pose proof (simple_duration_words words (8 * S k + 1) Hw') as Hd'.
    fold d in Hd'.
    assert (Hk' : (Qnat (8 * S k + 1) == 8 * Qnat k + 9)%Q).
    { unfold Qnat.
      replace (Z.of_nat (8 * S k + 1)) with (8 * Z.of_nat k + 9)%Z by lia.
      rewrite inject_Z_plus, inject_Z_mult. reflexivity. }
    rewrite Hk' in Hd'. rewrite Qnat_S.
    rewrite Q.min_l; [reflexivity | lra].
Qed.

Lemma simple_srt_entries_contiguous_witness :
  exists e, ClipProcessor.simple_entries "a b c d e f g h i" !! 0%nat = Some e
    /\ (startTime e < endTime e)%Q
    /\ (endTime e - startTime e <= 3)%Q
    /\ forall e', ClipProcessor.simple_entries "a b c d e f g h i" !! 1%nat = Some e' ->
         (startTime e' == endTime e)%Q.
Proof.
  eexists. split; [reflexivity|].
  apply (simple_srt_entries_contiguous "a b c d e f g h i" 0). reflexivity.
Defined.

(** ** What a subtitle line of the command-line pipeline holds *)

Section SubtitleLines.
Import WorkerIndex.

Variable P : ascii -> Prop.

Let all (s : string) : Prop := Forall P (list_ascii_of_string s).

Lemma split_go_parts sep merge in_run (s : string) :
  Forall (fun p => Forall (fun c => sep c = false) (list_ascii_of_string p))
         (split_go sep merge in_run s).
Proof.
  revert in_run. induction s as [|c s IH]; intros in_run; cbn [split_go].
  - repeat constructor.
  - destruct (sep c) eqn:Hc.
    + destruct (merge && in_run); [apply IH|].
      constructor; [constructor | apply IH].
    + specialize (IH false).
      destruct (split_go sep merge false s) as [|p ps].
      * repeat constructor. exact Hc.
      * apply Forall_cons in IH as [Hp Hps].
        constructor; [|exact Hps]. cbn. by constructor.
Qed.

Lemma ltrim_all (s : string) : all s -> all (ltrim s).
Proof.
  unfold all. induction s as [|c s IH]; cbn; [done|].
  intros H. apply Forall_cons in H as [Hc Hs].
  destruct (is_ws c); [by apply IH | by constructor].
Qed.

Lemma string_rev_onto_all (s acc : string) :
  all s -> all acc -> all (string_rev_onto s acc).
Proof.
  unfold all. revert acc. induction s as [|c s IH]; intros acc Hs Ha; cbn; [done|].
  cbn in Hs. apply Forall_cons in Hs as [Hc Hs].
  apply IH; [exact Hs|]. cbn. by constructor.
Qed.

Lemma trim_all (s : string) : all s -> all (trim s).
Proof.
  intros H. unfold trim, string_rev.
  apply string_rev_onto_all; [|constructor].
  apply ltrim_all. apply string_rev_onto_all; [|constructor].
  by apply ltrim_all.
Qed.

Lemma subtitle_loop_lines tps duration (sentences : list string) :
  forall i st e,
    e ∈ subtitle_loop tps duration i st sentences ->
    line e <> "" /\ exists s, s ∈ sentences /\ line e = trim s.
Proof.
  induction sentences as [|s rest IH]; intros i st e He; cbn [subtitle_loop] in He.
  - by apply elem_of_nil in He.
  - destruct (String.eqb (trim s) "") eqn:Hs.
    + destruct (IH _ _ _ He) as (Hne & s' & Hin & Hl).
      split; [exact Hne|]. exists s'. split; [by right | exact Hl].
    + apply elem_of_cons in He as [-> | He].
      * cbn. split; [by apply String.eqb_neq|]. exists s. split; [by left | done].
      * destruct (IH _ _ _ He) as (Hne & s' & Hin & Hl).
        split; [exact Hne|]. exists s'. split; [by right | exact Hl].
Qed.

End SubtitleLines.

(** X3.  A subtitle line that [generateSubtitles] writes is never empty
    and holds none of the characters that end a sentence: the full stops,
    exclamation marks and question marks of the narration are not shown. *)
Theorem subtitle_lines_drop_punctuation (text : string) (d : Q) (e : SrtEntry) :
  e ∈ WorkerIndex.subtitle_entries text d ->
  line e <> ""
  /\ Forall (fun c => c <> "."%char /\ c <> "!"%char /\ c <> "?"%char)
            (list_ascii_of_string (line e)).
Proof.
  intros He. unfold WorkerIndex.subtitle_entries in He.
  apply subtitle_loop_lines in He as (Hne & s & Hin & Hl).
  split; [exact Hne|]. rewrite Hl.
  apply (trim_all (fun c => c <> "."%char /\ c <> "!"%char /\ c <> "?"%char)).
  unfold WorkerIndex.sentences_of in Hin. apply list_elem_of_filter in Hin as [_ Hin].
  pose proof (split_go_parts is_sentence_end true false text) as Hparts.
  rewrite list.Forall_forall in Hparts. specialize (Hparts s Hin).
  eapply Forall_impl; [exact Hparts|]. intros c Hc.
  unfold is_sentence_end in Hc.
  apply orb_false_elim in Hc as [Hc Hq]. apply orb_false_elim in Hc as [Hd He].
  apply Ascii.eqb_neq in Hd, He, Hq. done.
Qed.

Lemma subtitle_lines_drop_punctuation_witness :
  exists e, e ∈ WorkerIndex.subtitle_entries "Hello world. Bye!" 30
    /\ line e = "Bye"
    /\ Forall (fun c => c <> "."%char /\ c <> "!"%char /\ c <> "?"%char)
              (list_ascii_of_string (line e)).
Proof.
  exists {| number := 2; startTime := Qmin (0 + 30 / Qnat 2) 30;
            endTime := Qmin (Qmin (0 + 30 / Qnat 2) 30 + 30 / Qnat 2) 30;
            line := "Bye" |}.
  assert (Hin : {| number := 2; startTime := Qmin (0 + 30 / Qnat 2) 30;
                   endTime := Qmin (Qmin (0 + 30 / Qnat 2) 30 + 30 / Qnat 2) 30;
                   line := "Bye" |}
                ∈ WorkerIndex.subtitle_entries "Hello world. Bye!" 30).
  { right. left. }
  split; [exact Hin|]. split; [reflexivity|].
  exact (proj2 (subtitle_lines_drop_punctuation _ _ _ Hin)).
Defined.

(** ** What [synthesizeVoice] does to the file system *)




(** ** What [generateNarration] makes of a provider's answer *)

(** X6.  When OpenAI is the selected provider and answers with a status
    that is OK, [generateNarration] returns what [ResultSchema] makes of
    the message's content: the parsed value as it is when it passes the
    schema, and the stub as a whole when it does not (an answer with five
    hashtags is not padded, and one with other keys is not patched). *)
Theorem generateNarration_openai_answer
    (w : Text.World) (req : Prompts.NarrationRequest) (key : string)
    (resp : Http.Response) (data : Json) (content : JsVal) (parsed : Json) :
  env_or (Text.process_env w) "AI_PROVIDER" "openai" = "openai" ->
  truthy_env (Text.process_env w) "OPENAI_API_KEY" = Some key ->
  Text.fetch w {| Http.url := "https://api.openai.com/v1/chat/completions";
                  Http.bearer := Some key; Http.api_key_header := None;
                  Http.texts := [Prompts.narrationSystemPrompt (Prompts.lang req)
                                   (Prompts.style req);
                                 Text.userPrompt req] |}
  = Http.Responded resp ->
  Http.ok resp = true ->
  Http.json resp = Some data ->
  (choices ← get (Some data) (Field "choices");
   first ← get choices (Idx 0);
   message ← get first (Field "message");
   get message (Field "content")) = Ok content ->
  Text.JSON_parse w content = Some parsed ->
  Text.generateNarration w req
  = Ok (match Text.ResultSchema_parse parsed with
        | Ok r => r
        | Throw _ => Samples.stub_result
        end).
Proof.
  intros Hp Hk Hf Hok Hj Hc Hparse.
  unfold Text.generateNarration. rewrite Hp. cbn [String.eqb Ascii.eqb Bool.eqb].
  change (if true then ?a else _) with a.
  unfold Text.generateWithOpenAI. rewrite Hk. cbv zeta. rewrite Hf, Hok, Hj.
  cbn [negb].
  apply rbind_Ok_inv in Hc as (choices & Hc1 & Hc).
  apply rbind_Ok_inv in Hc as (first & Hc2 & Hc).
  apply rbind_Ok_inv in Hc as (message & Hc3 & Hc4).
  rewrite Hc1. cbn [mbind Result_bind rbind].
  rewrite Hc2. cbn [mbind Result_bind rbind].
  rewrite Hc3. cbn [mbind Result_bind rbind].
  rewrite Hc4. cbn [mbind Result_bind rbind].
  unfold Text.parse_or_stub. rewrite Hparse.
  destruct (Text.ResultSchema_parse parsed); reflexivity.
Qed.

Lemma generateNarration_openai_answer_witness :
  Text.generateNarration Examples.text_world_openai Samples.req_en_zen
  = Ok Examples.reef_result.
Proof.
  apply (generateNarration_openai_answer Examples.text_world_openai Samples.req_en_zen
           "sk-test" Examples.reef_response (Examples.completion "{...}")
           (Some (JStr "{...}"))
           (Text.to_json Examples.reef_result));
    reflexivity.
Defined.

(** X7.  A narration that is not the stub comes from the selected
    provider: [AI_PROVIDER] names OpenAI (also by default) or Gemini, the
    key of that provider is set, and the value is what [ResultSchema] read
    from a text that [JSON.parse] accepted.  With any other provider name
    the result is the stub, whatever keys are set. *)
Theorem generateNarration_not_stub
    (w : Text.World) (req : Prompts.NarrationRequest) (r : Text.NarrationResult) :
  Text.generateNarration w req = Ok r ->
  r <> Samples.stub_result ->
  let provider := env_or (Text.process_env w) "AI_PROVIDER" "openai" in
  (provider = "openai" /\ is_Some (truthy_env (Text.process_env w) "OPENAI_API_KEY")
   \/ provider = "gemini" /\ is_Some (truthy_env (Text.process_env w) "GEMINI_API_KEY"))
  /\ exists content parsed,
       Text.JSON_parse w content = Some parsed
       /\ Text.ResultSchema_parse parsed = Ok r.
Proof.
  intros Hr Hne provider.
  assert (Htail : forall content,
             Text.parse_or_stub w req content = Ok r ->
             exists content parsed,
               Text.JSON_parse w content = Some parsed
               /\ Text.ResultSchema_parse parsed = Ok r).
  { intros content. unfold Text.parse_or_stub, try_catch.
    destruct (Text.JSON_parse w content) as [parsed|] eqn:Hp.
    - destruct (Text.ResultSchema_parse parsed) as [r'|] eqn:Hs.
      + intros [= <-]. by exists content, parsed.
      + intros [= <-]. done.
    - intros [= <-]. done. }
  unfold Text.generateNarration in Hr. fold provider in Hr.
  unfold try_catch in Hr.
  destruct (String.eqb provider "openai") eqn:Ho.
  - apply String.eqb_eq in Ho.
    destruct (Text.generateWithOpenAI w req) as [r'|] eqn:Hg;
      [|injection Hr as <-; done].
    injection Hr as ->.
    unfold Text.generateWithOpenAI in Hg.
    destruct (truthy_env _ "OPENAI_API_KEY") as [key|] eqn:Hk; [|discriminate].
    split; [left; split; [exact Ho | by eexists]|].
    destruct (Text.fetch w _) as [|response]; [discriminate|].
    destruct (negb _); [discriminate|].
    destruct (Http.json response) as [data|]; [|discriminate].
    repeat (apply rbind_Ok_inv in Hg as (? & _ & Hg)).
    by eapply Htail.
  - destruct (String.eqb provider "gemini") eqn:Hgm.
    + apply String.eqb_eq in Hgm.
      destruct (Text.generateWithGemini w req) as [r'|] eqn:Hg;
        [|injection Hr as <-; done].
      injection Hr as ->.
      unfold Text.generateWithGemini in Hg.
      destruct (truthy_env _ "GEMINI_API_KEY") as [key|] eqn:Hk; [|discriminate].
      split; [right; split; [exact Hgm | by eexists]|].
      destruct (Text.fetch w _) as [|response]; [discriminate|].
      destruct (negb _); [discriminate|].
      destruct (Http.json response) as [data|]; [|discriminate].
      repeat (apply rbind_Ok_inv in Hg as (? & _ & Hg)).
      by eapply Htail.
    + rewrite generateStub_ok in Hr. injection Hr as <-. done.
Qed.

Lemma generateNarration_not_stub_witness :
  is_Some (truthy_env (Text.process_env Examples.text_world_openai) "OPENAI_API_KEY")
  /\ exists content parsed,
       Text.JSON_parse Examples.text_world_openai content = Some parsed
       /\ Text.ResultSchema_parse parsed = Ok Examples.reef_result.
Proof.
  destruct (generateNarration_not_stub Examples.text_world_openai Samples.req_en_zen
              Examples.reef_result) as [Hsel Hval].
  - reflexivity.
  - discriminate.
  - split; [by eexists | exact Hval].
Defined.

(** ** The uploads to Drive *)

Section Uploads.
Import ClipProcessor.
Variable A : Adapters.



End Uploads.


(** ** The calls that a run makes *)

Section Makes.
Context {P : Call -> Prop}.

Lemma makes_silent {A} (c : M A) :
  (forall s, calls (c s).2 = calls s) -> makes P c.
Proof. intros H s. exists []. rewrite H, app_nil_r. by split. Qed.

Lemma makes_ret {A} (a : A) : makes P (mret a : M A).
Proof. by apply makes_silent. Qed.

Lemma makes_throw {A} m : makes P (throw m : M A).
Proof. by apply makes_silent. Qed.

Lemma makes_lift {A} (r : Result A) : makes P (lift r).
Proof. by apply makes_silent. Qed.

Lemma makes_updateProgress v : makes P (updateProgress v).
Proof. by apply makes_silent. Qed.

Lemma makes_write_file p c : makes P (write_file p c).
Proof. by apply makes_silent. Qed.

Lemma makes_simulateProcess ms : makes P (simulateProcess ms).
Proof. by apply makes_silent. Qed.

Lemma makes_Date_now : makes P Date_now.
Proof. by apply makes_silent. Qed.

Lemma makes_record_call c : P c -> makes P (record_call c).
Proof. intros Hc s. exists [c]. split; [reflexivity | by constructor]. Qed.

Lemma makes_bind {A B} (c : M A) (k : A -> M B) :
  makes P c -> (forall a, makes P (k a)) -> makes P (c ≫= k).
Proof.
  intros Hc Hk s. destruct (Hc s) as (l1 & E1 & H1).
  unfold mbind, M_bind. destruct (c s) as [[a|m] s1]; cbn in E1.
  - destruct (Hk a s1) as (l2 & E2 & H2). exists (l1 ++ l2).
    rewrite E2, E1, <- app_assoc. split; [done | by apply Forall_app].
  - by exists l1.
Qed.

Lemma makes_catch {A} (c : M A) (h : string -> M A) :
  makes P c -> (forall m, makes P (h m)) -> makes P (catch c h).
Proof.
  intros Hc Hh s. destruct (Hc s) as (l1 & E1 & H1).
  unfold catch. destruct (c s) as [[a|m] s1]; cbn in E1.
  - by exists l1.
  - destruct (Hh m s1) as (l2 & E2 & H2). exists (l1 ++ l2).
    rewrite E2, E1, <- app_assoc. split; [done | by apply Forall_app].
Qed.

End Makes.

Create HintDb makes.
#[export] Hint Resolve makes_ret makes_throw makes_lift makes_updateProgress
  makes_write_file makes_simulateProcess makes_Date_now : makes.

Ltac makes_step :=
  match goal with
  | |- makes _ (_ ≫= _) => apply makes_bind; [|intros ?]
  | |- makes _ (catch _ _) => apply makes_catch; [|intros ?]
  | |- makes _ (record_call _) => apply makes_record_call; reflexivity
  | |- makes _ (match ?x with _ => _ end) => destruct x
  | |- makes _ (if ?b then _ else _) => destruct b
  | |- makes _ (let _ := _ in _) => cbv zeta
  | |- makes _ _ => solve [auto with makes]
  end.

Ltac makes_auto := repeat makes_step.

Section LocalCalls.
Import ClipProcessor.
Variable A : Adapters.

Let local (c : Call) : Prop := is_drive_call c = false.

Lemma makes_ingestVideo videoPath clipId : makes local (ingestVideo A videoPath clipId).
Proof. unfold ingestVideo, spawn_arg. makes_auto. Qed.

Lemma makes_generateNarrations_from clips :
  forall i, makes local (generateNarrations_from A i clips).
Proof.
  induction clips as [|clip rest IH]; intros i; cbn [generateNarrations_from].
  - makes_auto.
  - apply makes_bind; [makes_auto|]. intros ?.
    apply makes_bind; [apply IH|]. intros ?. makes_auto.
Qed.

Lemma makes_generateAudioAndSubtitles infos :
  makes local (generateAudioAndSubtitles A infos).
Proof.
  induction infos as [|info rest IH]; cbn [generateAudioAndSubtitles].
  - makes_auto.
  - apply makes_bind; [unfold writeFile; makes_auto|]. intros ?.
    apply makes_bind; [apply IH|]. intros ?. makes_auto.
Qed.

Lemma makes_createFinalMontage infos : makes local (createFinalMontage A infos).
Proof.
  induction infos as [|info rest IH]; cbn [createFinalMontage].
  - makes_auto.
  - apply makes_bind; [unfold montage_one, spawn_arg; makes_auto|]. intros ?.
    apply makes_bind; [apply IH|]. intros ?. makes_auto.
Qed.

Lemma makes_processClip_local clipId jobData :
  driveFile jobData = None -> makes local (processClip A clipId jobData).
Proof.
  intros Hlocal. unfold processClip. cbv zeta. rewrite Hlocal.
  apply makes_catch; [|intros ?; makes_auto].
  apply makes_bind; [makes_auto|]. intros ?.
  apply makes_bind; [makes_auto|]. intros ?.
  apply makes_bind; [apply makes_ingestVideo|]. intros ?.
  apply makes_bind; [makes_auto|]. intros ?.
  apply makes_bind; [apply makes_generateNarrations_from|]. intros ?.
  apply makes_bind; [makes_auto|]. intros ?.
  apply makes_bind; [apply makes_generateAudioAndSubtitles|]. intros ?.
  apply makes_bind; [makes_auto|]. intros ?.
  apply makes_bind; [apply makes_createFinalMontage|]. intros ?.
  makes_auto.
Qed.

Lemma processClip_local_result clipId jobData s r s' :
  driveFile jobData = None ->
  processClip A clipId jobData s = (Ok r, s') ->
  uploadResults r = None
  /\ inputPath r = Some (JStr (local_path A clipId))
  /\ res_clipId r = clipId.
Proof.
  intros Hlocal. unfold processClip. cbv zeta. rewrite Hlocal, catch_rethrow.
  intros H. inv_ok H.
  apply mret_inv in E0 as [<- _]. apply mret_inv in E9 as [<- _]. done.
Qed.

End LocalCalls.

(** X9.  A job without a Drive file stays on the machine: the run never
    asks for a download, a folder or an upload, and when it returns, its
    result carries no upload results and names the clip's own video in
    samples/clips as its input.  Every job that the dashboard's
    [createProcessClipJob] makes is such a job. *)
Theorem local_job_never_calls_drive
    (A : ClipProcessor.Adapters) (clipId : string)
    (jobData : ClipProcessor.JobData) (s : State) :
  ClipProcessor.driveFile jobData = None ->
  let out := ClipProcessor.processClip A clipId jobData s in
  (exists l, calls out.2 = calls s ++ l
             /\ Forall (fun c => is_drive_call c = false) l)
  /\ (forall r, out.1 = Ok r ->
        ClipProcessor.uploadResults r = None
        /\ ClipProcessor.inputPath r = Some (JStr (local_path A clipId)))
  /\ forall id, ClipProcessor.driveFile (Queue.createProcessClipJob id) = None.
Proof.
  intros Hlocal out. split; [|split].
  - apply (makes_processClip_local A clipId jobData Hlocal s).
  - intros r Hr. subst out.
    destruct (ClipProcessor.processClip A clipId jobData s) as [r' s'] eqn:E.
    cbn in Hr. subst r'.
    destruct (processClip_local_result A _ _ _ _ _ Hlocal E) as (H1 & H2 & _).
    by split.
  - reflexivity.
Qed.

Lemma local_job_never_calls_drive_witness :
  let out := ClipProcessor.processClip Samples.adapters_ok "clip42"
               (Queue.createProcessClipJob "clip42") initial_state in
  (exists l, calls out.2 = [] ++ l /\ Forall (fun c => is_drive_call c = false) l)
  /\ is_ok out.1 = true.
Proof.
  split; [|reflexivity].
  apply (local_job_never_calls_drive Samples.adapters_ok "clip42"
           (Queue.createProcessClipJob "clip42") initial_state).
  reflexivity.
Defined.

(** ** The subtitle files of a run *)

Section Keeps.

Lemma keeps_ret {A} (a : A) : keeps (mret a : M A).
Proof. done. Qed.

Lemma keeps_throw {A} m : keeps (throw m : M A).
Proof. done. Qed.

Lemma keeps_lift {A} (r : Result A) : keeps (lift r).
Proof. done. Qed.

Lemma keeps_updateProgress v : keeps (updateProgress v).
Proof. done. Qed.

Lemma keeps_record_call c : keeps (record_call c).
Proof. done. Qed.

Lemma keeps_bind {A B} (c : M A) (k : A -> M B) :
  keeps c -> (forall a, keeps (k a)) -> keeps (c ≫= k).
Proof.
  intros Hc Hk s. specialize (Hc s). unfold mbind, M_bind.
  destruct (c s) as [[a|m] s1]; cbn in Hc; [|done]. by rewrite Hk.
Qed.

Lemma keeps_catch {A} (c : M A) (h : string -> M A) :
  keeps c -> (forall m, keeps (h m)) -> keeps (catch c h).
Proof.
  intros Hc Hh s. specialize (Hc s). unfold catch.
  destruct (c s) as [[a|m] s1]; cbn in Hc; [done|]. by rewrite Hh.
Qed.

End Keeps.

Create HintDb keeps.
#[export] Hint Resolve keeps_ret keeps_throw keeps_lift keeps_updateProgress
  keeps_record_call : keeps.

Ltac keeps_step :=
  match goal with
  | |- keeps (_ ≫= _) => apply keeps_bind; [|intros ?]
  | |- keeps (catch _ _) => apply keeps_catch; [|intros ?]
  | |- keeps (match ?x with _ => _ end) => destruct x
  | |- keeps (if ?b then _ else _) => destruct b
  | |- keeps (let _ := _ in _) => cbv zeta
  | |- keeps _ => solve [auto with keeps]
  end.

Ltac keeps_auto := repeat keeps_step.

Section SubtitleFiles.
Import ClipProcessor.
Variable A : Adapters.

Lemma keeps_downloadFromDrive fileId clipId : keeps (downloadFromDrive A fileId clipId).
Proof. unfold downloadFromDrive. keeps_auto. Qed.

Lemma keeps_ingestVideo videoPath clipId : keeps (ingestVideo A videoPath clipId).
Proof. unfold ingestVideo, spawn_arg. keeps_auto. Qed.

Lemma keeps_generateNarrations_from clips :
  forall i, keeps (generateNarrations_from A i clips).
Proof.
  induction clips as [|clip rest IH]; intros i; cbn [generateNarrations_from].
  - keeps_auto.
  - apply keeps_bind; [keeps_auto|]. intros ?.
    apply keeps_bind; [apply IH|]. intros ?. keeps_auto.
Qed.

Lemma keeps_createFinalMontage infos : keeps (createFinalMontage A infos).
Proof.
  induction infos as [|info rest IH]; cbn [createFinalMontage].
  - keeps_auto.
  - apply keeps_bind; [unfold montage_one, spawn_arg; keeps_auto|]. intros ?.
    apply keeps_bind; [apply IH|]. intros ?. keeps_auto.
Qed.

Lemma keeps_upload_loop folderId videos : keeps (upload_loop A folderId videos).
Proof.
  induction videos as [|video rest IH]; cbn [upload_loop].
  - keeps_auto.
  - apply keeps_bind; [unfold upload_one; keeps_auto|]. intros ?.
    apply keeps_bind; [apply IH|]. intros ?. keeps_auto.
Qed.

Lemma keeps_uploadResultsToDrive videos file :
  keeps (uploadResultsToDrive A videos file).
Proof.
  unfold uploadResultsToDrive. cbv zeta.
  apply keeps_bind; [keeps_auto|]. intros ?.
  destruct (driveApi A _); [keeps_auto|].
  destruct (negb _); [keeps_auto|].
  destruct (Http.json _); [|keeps_auto].
  apply keeps_bind; [keeps_auto|]. intros ?.
  apply keeps_bind; [keeps_auto|]. intros ?.
  apply keeps_bind; [apply keeps_upload_loop|]. intros ?. keeps_auto.
Qed.

(** The narrations carry the indices of their clips, in rising order. *)
Lemma generateNarrations_from_indices clips :
  forall i s l s',
    generateNarrations_from A i clips s = (Ok l, s') ->
    Forall (fun n => (i <= index n)%nat) l /\ NoDup (index <$> l).
Proof.
  induction clips as [|clip rest IH]; intros i s l s' H; cbn [generateNarrations_from] in H.
  - apply mret_inv in H as [<- _]. split; constructor.
  - inv_ok H. destruct (IH _ _ _ _ E0) as [Hge Hnd].
    assert (Hge' : Forall (fun n => (i <= index n)%nat) x1).
    { eapply Forall_impl; [exact Hge|]. cbn. lia. }
    apply catch_Ok_inv in E as [E | (m & s1 & _ & E)].
    + inv_ok E. cbn [app]. split.
      * constructor; [cbn; lia | exact Hge'].
      * cbn [fmap list_fmap index]. constructor; [|exact Hnd].
        intros Hin. apply list_elem_of_fmap in Hin as (n & Hn & Hin).
        rewrite list.Forall_forall in Hge. specialize (Hge n Hin). cbn in Hn. lia.
    + apply mret_inv in E as [<- _]. by split.
Qed.

Lemma srt_path_inj (i j : nat) : srt_path A i = srt_path A j -> i = j.
Proof.
  unfold srt_path. intros H. repeat apply String.app_inj in H.
  apply string_app_inj_r in H. by apply (inj pretty) in H.
Qed.

(** One round of [generateAudioAndSubtitles]: the clip is kept and its
    subtitles are on disk, or it is dropped and nothing was written. *)
Lemma audio_round info s pushed s1 :
  catch
    (let audioPath := audio_path A (index info) in
     let srtPath := srt_path A (index info) in
     let text := Text.narration (narration info) in
     _ ← record_call (CallVoice text audioPath);
     _ ← lift (synthesizeVoice A text audioPath);
     _ ← writeFile A srtPath (generateSimpleSRT text);
     mret [ {| a_info := info; audioPath := audioPath; srtPath := srtPath |} ])
    (fun _ => mret []) s = (Ok pushed, s1) ->
  (pushed = [ {| a_info := info; audioPath := audio_path A (index info);
                 srtPath := srt_path A (index info) |} ]
   /\ files s1 = <[srt_path A (index info) := subtitles_of info]> (files s))
  \/ (pushed = [] /\ files s1 = files s).
Proof.
  unfold catch, writeFile, mbind, M_bind, record_call, lift, throw, write_file,
    mret, M_ret, subtitles_of.
  cbn.
  destruct (synthesizeVoice A _ _); [|intros [= <- <-]; by right].
  destruct (writeFile_error A _); intros [= <- <-]; [by right | by left].
Qed.

Lemma generateAudioAndSubtitles_files infos :
  forall s l s',
    generateAudioAndSubtitles A infos s = (Ok l, s') ->
    (forall p, (forall info, info ∈ infos -> p <> srt_path A (index info)) ->
               files s' !! p = files s !! p)
    /\ (NoDup (index <$> infos) ->
        forall a, a ∈ l -> files s' !! srtPath a = Some (subtitles_of (a_info a))).
Proof.
  induction infos as [|info rest IH]; intros s l s' H;
    cbn [generateAudioAndSubtitles] in H.
  - apply mret_inv in H as [<- <-]. split; [done|].
    intros _ a Ha. by apply elem_of_nil in Ha.
  - inv_ok H. destruct (IH _ _ _ E0) as [Hframe Hfiles].
    apply audio_round in E.
    assert (Hother : forall p, p <> srt_path A (index info) ->
                               files x0 !! p = files s !! p).
    { intros p Hp. destruct E as [[_ ->] | [_ ->]]; [|done].
      by rewrite lookup_insert_ne. }
    split.
    + intros p Hp. rewrite Hframe.
      * apply Hother. apply Hp. by left.
      * intros info' Hin. apply Hp. by right.
    + intros Hnd a Ha. apply NoDup_cons in Hnd as [Hnotin Hnd].
      apply elem_of_app in Ha as [Ha | Ha].
      * destruct E as [[-> Ex0] | [-> _]]; [|by apply elem_of_nil in Ha].
        apply list_elem_of_singleton in Ha as ->. cbn [srtPath a_info].
        rewrite Hframe.
        -- rewrite Ex0. apply lookup_insert_eq.
        -- intros info' Hin Heq. apply srt_path_inj in Heq.
           apply Hnotin. rewrite Heq. apply list_elem_of_fmap. by exists info'.
      * by apply Hfiles.
Qed.

Lemma processClip_subtitle_files clipId jobData s r s' :
  processClip A clipId jobData s = (Ok r, s') ->
  forall v, v ∈ finalVideos r ->
    files s' !! srtPath (f_info v) = Some (subtitles_of (a_info (f_info v))).
Proof.
  unfold processClip. cbv zeta. rewrite catch_rethrow.
  intros H. inv_ok H. cbn [finalVideos]. intros v Hv.
  destruct (createFinalMontage_sound A _ _ _ _ E7 v Hv) as (Hin & _).
  destruct (generateNarrations_from_indices _ _ _ _ _ E3) as [_ Hnd].
  destruct (generateAudioAndSubtitles_files _ _ _ _ E5) as [_ Hfiles].
  specialize (Hfiles Hnd _ Hin).
  assert (K1 : files x14 = files x12) by (by apply (f_equal (files ∘ snd)) in E6).
  assert (K2 : files x16 = files x14).
  { pose proof (keeps_createFinalMontage x11 x14) as K. by rewrite E7 in K. }
  assert (K3 : files x18 = files x16) by (by apply (f_equal (files ∘ snd)) in E8).
  assert (K4 : files x20 = files x18).
  { destruct (driveFile jobData) as [file|].
    - apply bind_Ok_inv in E9 as (u & s9 & Eu & E9).
      apply mret_inv in E9 as [_ <-].
      pose proof (keeps_uploadResultsToDrive x15 file x18) as K.
      by rewrite Eu in K.
    - by apply mret_inv in E9 as [_ <-]. }
  assert (K5 : files s' = files x20) by (by apply (f_equal (files ∘ snd)) in E10).
  by rewrite K5, K4, K3, K2, K1.
Qed.

End SubtitleFiles.

(** X10.  When [processClip] returns, the subtitle file of every final
    video is on disk and holds the subtitles made from that video's own
    narration: clips are told apart by their index, so no clip's file is
    overwritten by another's, and the later stages write no file. *)
Theorem final_videos_have_their_subtitles
    (A : ClipProcessor.Adapters) (clipId : string)
    (jobData : ClipProcessor.JobData) (s s' : State) (r : ClipProcessor.ClipResult) :
  ClipProcessor.processClip A clipId jobData s = (Ok r, s') ->
  forall v, v ∈ ClipProcessor.finalVideos r ->
    let a := ClipProcessor.f_info v in
    files s' !! ClipProcessor.srtPath a
    = Some (SrtFile (ClipProcessor.generateSimpleSRT
                       (Text.narration (ClipProcessor.narration
                                          (ClipProcessor.a_info a)))))
    /\ ClipProcessor.srtPath a
       = ClipProcessor.srt_path A (ClipProcessor.index (ClipProcessor.a_info a)).
Proof.
  intros H v Hv a. split.
  - by apply (processClip_subtitle_files A clipId jobData s r s' H v Hv).
  - destruct (processClip_Ok_inv A _ _ _ _ _ H) as [_ Hs].
    destruct (Hs v Hv) as (_ & _ & Hsrt & _). exact Hsrt.
Qed.

Lemma final_videos_have_their_subtitles_witness :
  let out := ClipProcessor.processClip Samples.adapters_ok "clip42" Samples.clip_job
               initial_state in
  match out.1 with
  | Ok r =>
      length (ClipProcessor.finalVideos r) = 2%nat
      /\ Forall (fun v =>
                   files out.2 !! ClipProcessor.srtPath (ClipProcessor.f_info v)
                   = Some (SrtFile (ClipProcessor.generateSimpleSRT
                                      (Text.narration
                                         (ClipProcessor.narration
                                            (ClipProcessor.a_info
                                               (ClipProcessor.f_info v)))))))
                (ClipProcessor.finalVideos r)
  | Throw _ => False
  end.
Proof.
  intros out. subst out.
  destruct (ClipProcessor.processClip Samples.adapters_ok "clip42" Samples.clip_job
              initial_state) as [[r|m] s'] eqn:E; cbn [fst snd].
  - split.
    + apply (f_equal (fun o => match o.1 with
                               | Ok r => length (ClipProcessor.finalVideos r)
                               | Throw _ => 0%nat
                               end)) in E.
      vm_compute in E. by symmetry.
    + apply list.Forall_forall. intros v Hv.
      exact (proj1 (final_videos_have_their_subtitles _ _ _ _ _ _ E v Hv)).
  - vm_compute in E. discriminate.
Defined.

(** ** Jobs that the worker turns away *)

Section Validation.
Import ClipProcessor.
Variables (A : Adapters) (E : PublishProcessor.Env).

Lemma grows_of_reports {X} (L : list nat) (c : M X) s :
  reports L c -> exists l, reported (c s).2 = reported s ++ l.
Proof. intros H. destruct (H s) as (l & Hl & _). by exists l. Qed.

Lemma processClip_starts_at_5 clipId jobData s :
  exists l, reported (processClip A clipId jobData s).2 = reported s ++ 5%nat :: l.
Proof.
  unfold processClip. cbv zeta. rewrite catch_rethrow, bind_updateProgress.
  set (s1 := (updateProgress 5 s).2).
  match goal with
  | |- exists l, reported (?k s1).2 = _ =>
      assert (H : exists L, reports L k)
  end.
  { destruct (driveFile jobData) as [file|].
    - eexists. eapply (reports_bind [15]).
      { eapply reports_eq; [repeat reports_step | reflexivity]. }
      intros ?. repeat reports_step.
    - eexists. eapply (reports_bind []); [apply reports_ret | intros ?].
      repeat reports_step. }
  destruct H as [L H]. destruct (grows_of_reports L _ s1 H) as [l Hl].
  exists l. rewrite Hl. subst s1. cbn. by rewrite <- app_assoc.
Qed.

Lemma publishContent_starts_at_10 clipId platform s :
  exists l,
    reported (PublishProcessor.publishContent E clipId platform s).2
    = reported s ++ 10%nat :: l.
Proof.
  unfold PublishProcessor.publishContent.
  rewrite catch_rethrow, bind_updateProgress.
  set (s1 := (updateProgress 10 s).2).
  match goal with
  | |- exists l, reported (?k s1).2 = _ =>
      assert (H : exists L, reports L k) by (eexists; repeat reports_step)
  end.
  destruct H as [L H]. destruct (grows_of_reports L _ s1 H) as [l Hl].
  exists l. rewrite Hl. subst s1. cbn. by rewrite <- app_assoc.
Qed.

End Validation.

(** X11.  The worker looks at a job before it works on it.  A job whose
    type is neither 'process-clip' nor 'publish-content', a clip job
    without a clip id and a publish job without a clip id or a platform
    (an empty string counts as missing) are turned away with the message of
    their case, and nothing has been done for them: no progress is
    reported, no call made, no file written.  Every other job reports its
    first checkpoint, 5 or 10, whatever happens next. *)
Theorem rejected_jobs_do_no_work
    (A : ClipProcessor.Adapters) (E : PublishProcessor.Env)
    (data : ClipProcessor.JobData) (s : State) :
  let out := Worker.processJob A E data s in
  let type := ClipProcessor.type data in
  let clipId := VoiceGen.falsy_opt (ClipProcessor.clipId data) in
  let platform := VoiceGen.falsy_opt (ClipProcessor.platform data) in
  (type <> "process-clip" -> type <> "publish-content" ->
   out = (Throw ("Unknown job type: " +:+ type), s))
  /\ (type = "process-clip" -> clipId = None ->
      out = (Throw "clipId is required for clip processing", s))
  /\ (type = "publish-content" -> clipId = None \/ platform = None ->
      out = (Throw "clipId and platform are required for publishing", s))
  /\ (type = "process-clip" -> is_Some clipId ->
      exists l, reported out.2 = reported s ++ 5%nat :: l)
  /\ (type = "publish-content" -> is_Some clipId -> is_Some platform ->
      exists l, reported out.2 = reported s ++ 10%nat :: l).
Proof.
  intros out type clipId platform. subst out.
  unfold Worker.processJob. rewrite catch_rethrow. fold type clipId platform.
  repeat split.
  - intros H1 H2. apply String.eqb_neq in H1, H2. by rewrite H1, H2.
  - intros -> ->. reflexivity.
  - intros -> H. cbn [String.eqb Ascii.eqb Bool.eqb].
    destruct H as [-> | ->]; [reflexivity|]. by destruct clipId.
  - intros -> [c ->]. cbn [String.eqb Ascii.eqb Bool.eqb].
    destruct (processClip_starts_at_5 A c data s) as [l Hl]. exists l.
    unfold mbind, M_bind.
    destruct (ClipProcessor.processClip A c data s) as [[r|m] s1]; exact Hl.
  - intros -> [c ->] [p ->]. cbn [String.eqb Ascii.eqb Bool.eqb].
    destruct (publishContent_starts_at_10 E c p s) as [l Hl]. exists l.
    unfold mbind, M_bind.
    destruct (PublishProcessor.publishContent E c p s) as [[r|m] s1]; exact Hl.
Qed.

Lemma rejected_jobs_do_no_work_witness :
  Worker.processJob Samples.adapters_ok Samples.publish_env
    {| ClipProcessor.type := "process-drive-file"; ClipProcessor.clipId := None;
       ClipProcessor.platform := None;
       ClipProcessor.driveFile := Some {| ClipProcessor.name := "dive.mp4" |};
       ClipProcessor.fileId := Some "f1" |} initial_state
  = (Throw "Unknown job type: process-drive-file", initial_state).
Proof.
  apply (rejected_jobs_do_no_work Samples.adapters_ok Samples.publish_env
           {| ClipProcessor.type := "process-drive-file"; ClipProcessor.clipId := None;
              ClipProcessor.platform := None;
              ClipProcessor.driveFile := Some {| ClipProcessor.name := "dive.mp4" |};
              ClipProcessor.fileId := Some "f1" |} initial_state);
    discriminate.
Defined.

(** ** How a publish job fails *)

(** X12.  [publishContent] fails in two ways only, and writes no receipt
    when it fails.  A platform other than 'youtube', 'tiktok' and 'meta'
    (the names are lower case: 'YOUTUBE' is none of them) is refused by the
    upload: the job has reported 10, 25 and 50 and waited 3000 ms.  When
    the receipt cannot be written, the upload has already been made: the
    job has reported up to 90, never 100, and throws the error of the
    write. *)
Theorem publishContent_failures
    (E : PublishProcessor.Env) (clipId platform : string) (s : State) :
  (~ supported platform ->
   PublishProcessor.publishContent E clipId platform s
   = (Throw ("Unsupported platform: " +:+ platform),
      {| reported := reported s ++ [10; 25; 50]%nat;
         calls := calls s ++ [CallPlatformUpload clipId platform];
         files := files s;
         clock := (clock s + 1000 + 2000)%N |}))
  /\ (forall m,
        supported platform ->
        PublishProcessor.writeFile_error E
          (PublishProcessor.receipt_path E clipId platform (receipt_time s)) = Some m ->
        PublishProcessor.publishContent E clipId platform s
        = (Throw m,
           {| reported := reported s ++ [10; 25; 50; 75; 90]%nat;
              calls := calls s ++ [CallPlatformUpload clipId platform];
              files := files s;
              clock := receipt_time s |})).
Proof.
  split.
  - intros Hno.
    assert (H1 : String.eqb platform "youtube" = false)
      by (apply String.eqb_neq; intros ->; apply Hno; by left).
    assert (H2 : String.eqb platform "tiktok" = false)
      by (apply String.eqb_neq; intros ->; apply Hno; right; by left).
    assert (H3 : String.eqb platform "meta" = false)
      by (apply String.eqb_neq; intros ->; apply Hno; right; by right).
    unfold PublishProcessor.publishContent, PublishProcessor.uploadToPlatform,
      catch, mbind, M_bind, updateProgress, simulateProcess, record_call,
      Date_now, throw.
    cbn. rewrite H1, H2, H3. cbn.
    by rewrite <- !app_assoc.
  - intros m Hsup Hw.
    unfold PublishProcessor.publishContent, PublishProcessor.uploadToPlatform,
      PublishProcessor.savePublishReceipt,
      catch, mbind, M_bind, updateProgress, simulateProcess, record_call,
      Date_now, throw, mret, M_ret.
    unfold receipt_time in *.
    destruct Hsup as [-> | [-> | ->]]; cbn in *; rewrite Hw; cbn;
      by rewrite <- !app_assoc.
Qed.

Lemma publishContent_failures_witness :
  PublishProcessor.publishContent Samples.publish_env "clip42" "YOUTUBE" initial_state
  = (Throw "Unsupported platform: YOUTUBE",
     {| reported := [10; 25; 50]%nat;
        calls := [CallPlatformUpload "clip42" "YOUTUBE"];
        files := ∅; clock := 3000%N |}).
Proof.
  apply (proj1 (publishContent_failures Samples.publish_env "clip42" "YOUTUBE"
                  initial_state)).
  intros [H | [H | H]]; discriminate.
Defined.
